(** * newsletgen: the tool-call loop, the pipeline and the document renderer

    A shallow embedding of [newsletter_agent.py].

    Text.  A Python [str] is a [string] holding its UTF-8 bytes.  The
    operations that Python defines on characters read the bytes as
    characters: [strip] removes every character [str.isspace] holds of,
    [slice_to] and [char_length] count characters.  The patterns the
    program searches for are ASCII, and UTF-8 keeps ASCII bytes for ASCII
    characters only, so searching the bytes is searching the characters.

    Effects.  The chat service, the two web tools, the clock and the
    document backend are collaborators; they are the fields of a record
    [Client] over an abstract world.  Code that calls them runs in a small
    monad that threads the world, may raise, and logs the calls it makes.
    What is raised is an exception of class Exception, the kind the
    handlers of the program catch; interrupts are not modelled, and
    neither is console output. *)

From Stdlib Require Import Ascii Lia.
From stdpp Require Import base strings list gmap.

#[local] Arguments String.append !s1 s2 : simpl nomatch.

(** ** Python text operations *)

Definition nl : string := String "010"%char "".

Definition bytes (codes : list nat) : string :=
  String.string_of_list_ascii (map ascii_of_nat codes).

(** The characters [str.isspace] holds of, each in UTF-8: TAB to CR, FS to
    US and the space; U+0085 and U+00A0; U+1680; U+2000 to U+200A, U+2028,
    U+2029 and U+202F; U+205F; U+3000. *)
Definition whitespace : list string :=
  map bytes
    [ [9]; [10]; [11]; [12]; [13]; [28]; [29]; [30]; [31]; [32];
      [194; 133]; [194; 160];
      [225; 154; 128];
      [226; 128; 128]; [226; 128; 129]; [226; 128; 130]; [226; 128; 131];
      [226; 128; 132]; [226; 128; 133]; [226; 128; 134]; [226; 128; 135];
      [226; 128; 136]; [226; 128; 137]; [226; 128; 138];
      [226; 128; 168]; [226; 128; 169]; [226; 128; 175];
      [226; 129; 159];
      [227; 128; 128] ].

Definition is_upper (c : ascii) : bool :=
  let n := nat_of_ascii c in (65 <=? n) && (n <=? 90).

Definition lower_char (c : ascii) : ascii :=
  if is_upper c then ascii_of_nat (nat_of_ascii c + 32) else c.

(** [s.lower()] for what the program does with it, a prefix test against
    ASCII tokens (line 283): ASCII capitals become small letters.  Python
    also maps characters beyond ASCII, always to characters beyond ASCII
    save two: U+0130 gives i and then U+0307, U+212A gives k.  No token of
    the program has a k or ends in i, so the test comes out the same. *)
Fixpoint lower (s : string) : string :=
  match s with
  | EmptyString => EmptyString
  | String c s' => String (lower_char c) (lower s')
  end.

(** [s.startswith(prefix)] *)
Fixpoint startswith (prefix s : string) : bool :=
  match prefix, s with
  | EmptyString, _ => true
  | String _ _, EmptyString => false
  | String a p, String b s' => Ascii.eqb a b && startswith p s'
  end.

(** A byte that goes on a character begun before it (10xxxxxx). *)
Definition is_continuation (c : ascii) : bool :=
  let n := nat_of_ascii c in (128 <=? n) && (n <=? 191).

(** [len(s)]: the characters of [s], one for each byte that begins one. *)
Fixpoint char_length (s : string) : nat :=
  match s with
  | EmptyString => 0
  | String c s' =>
      if is_continuation c then char_length s' else S (char_length s')
  end.

(** [s[:n]]: the first [n] characters, each with all its bytes. *)
Fixpoint slice_to (n : nat) (s : string) : string :=
  match s with
  | EmptyString => EmptyString
  | String c s' =>
      if is_continuation c then String c (slice_to n s')
      else match n with
           | O => EmptyString
           | S k => String c (slice_to k s')
           end
  end.

(** [s[n:]] where the first [n] characters of [s] are ASCII, as they are
    where the program slices (line 288, behind the test for the marker). *)
Fixpoint slice_from (n : nat) (s : string) : string :=
  match n, s with
  | S k, String _ s' => slice_from k s'
  | _, _ => s
  end.

(** The number of bytes of the whitespace character [s] starts with, 0
    when it starts with none. *)
Definition space_width (s : string) : nat :=
  match List.find (fun ws => startswith ws s) whitespace with
  | Some ws => String.length ws
  | None => 0
  end.

(** [s.lstrip()]; [skip] counts the bytes still to drop of a whitespace
    character that was found. *)
Fixpoint lstrip_from (skip : nat) (s : string) : string :=
  match s with
  | EmptyString => EmptyString
  | String c s' =>
      match skip with
      | S k => lstrip_from k s'
      | O =>
          match space_width s with
          | O => s
          | S k => lstrip_from k s'
          end
      end
  end.

Definition lstrip (s : string) : string := lstrip_from 0 s.

(** [s] is whitespace characters from end to end. *)
Fixpoint all_space_from (skip : nat) (s : string) : bool :=
  match s with
  | EmptyString => skip =? 0
  | String c s' =>
      match skip with
      | S k => all_space_from k s'
      | O =>
          match space_width s with
          | O => false
          | S k => all_space_from k s'
          end
      end
  end.

(** [s.rstrip()]: [s] up to where only whitespace is left. *)
Fixpoint rstrip (s : string) : string :=
  match s with
  | EmptyString => EmptyString
  | String c s' =>
      if all_space_from 0 s then EmptyString else String c (rstrip s')
  end.

(** [s.strip()] *)
Definition strip (s : string) : string := rstrip (lstrip s).

(** [c in s] for a single character. *)
Fixpoint has_char (c : ascii) (s : string) : bool :=
  match s with
  | EmptyString => false
  | String d s' => Ascii.eqb c d || has_char c s'
  end.

(** [s.replace(old, new)] scans from the left; at an occurrence of [old]
    it writes [new] and jumps over the occurrence.  [skip] counts the
    characters of the occurrence that are still to be jumped over. *)
Fixpoint replace_from (old new : string) (skip : nat) (s : string) : string :=
  match s with
  | EmptyString => EmptyString
  | String c s' =>
      match skip with
      | S k => replace_from old new k s'
      | O =>
          if startswith old s
          then new +:+ replace_from old new (String.length old - 1) s'
          else String c (replace_from old new 0 s')
      end
  end.

(** With an empty [old] Python writes [new] before every character and at
    the end. *)
Fixpoint interleave (new s : string) : string :=
  match s with
  | EmptyString => new
  | String c s' => new +:+ String c (interleave new s')
  end.

Definition replace (old new s : string) : string :=
  match old with
  | EmptyString => interleave new s
  | String _ _ => replace_from old new 0 s
  end.

(** [s.split(sep)] for a non-empty [sep] (Python raises on an empty one;
    the program only splits on two line breaks).  The head of the result is
    the piece under construction. *)
Fixpoint split_from (sep : string) (skip : nat) (s : string) : list string :=
  match s with
  | EmptyString => [EmptyString]
  | String c s' =>
      match skip with
      | S k => split_from sep k s'
      | O =>
          if startswith sep s
          then EmptyString :: split_from sep (String.length sep - 1) s'
          else match split_from sep 0 s' with
               | p :: ps => String c p :: ps
               | [] => [String c EmptyString]
               end
      end
  end.

Definition split (sep s : string) : list string := split_from sep 0 s.

(** Python's [repr] of a text of ASCII characters, for the test doubles.
    The quote is the double one when the text has a single quote and no
    double one; the quote, the backslash and control characters are
    escaped. *)
Definition hex_digit (n : nat) : ascii :=
  ascii_of_nat (if n <? 10 then 48 + n else 87 + n).

Definition repr_char (quote c : ascii) : string :=
  let n := nat_of_ascii c in
  if Ascii.eqb c quote || Ascii.eqb c "\"%char then String "\"%char (String c "")
  else if n =? 10 then "\n"
  else if n =? 13 then "\r"
  else if n =? 9 then "\t"
  else if (n <? 32) || (n =? 127)
       then String "\"%char (String "x"%char
              (String (hex_digit (n / 16)) (String (hex_digit (n mod 16)) "")))
  else String c "".

Fixpoint repr_body (quote : ascii) (s : string) : string :=
  match s with
  | EmptyString => EmptyString
  | String c s' => repr_char quote c +:+ repr_body quote s'
  end.

Definition repr_ascii (s : string) : string :=
  let quote := if has_char "'"%char s && negb (has_char "034"%char s)
               then "034"%char else "'"%char in
  String quote (repr_body quote s +:+ String quote "").

(** ** Values exchanged with the chat service *)

(** An attribute the code probes with [hasattr] and then tests for truth:
    it may be missing, hold [None], or hold a value. *)
Inductive attr (A : Type) : Type :=
  | Missing
  | PyNone
  | Val (a : A).
Arguments Missing {A}.
Arguments PyNone {A}.
Arguments Val {A} a.

(** [tool_call.function.name] and [tool_call.function.arguments] *)
Record tool_call := ToolCall {
  tc_name : string;
  tc_arguments : gmap string string
}.

(** [response.message] *)
Record reply := Message {
  content : attr string;
  tool_calls : attr (list tool_call)
}.

Inductive role := system | user | tool.

(** An entry of [messages]: a dict the code builds, or the reply object
    itself (line 106 appends [response.message] as it came). *)
Inductive message :=
  | Dict (r : role) (c : string)
  | Reply (m : reply).

(** ** Document elements *)

Inductive style := title_style | heading_style | body_style.

Inductive element :=
  | Paragraph (text : string) (s : style)
  | Spacer.

(** ** Exceptions, events and the monad *)

(** An exception: the name of its class and [str(e)]. *)
Record exn := Exn { exn_class : string; exn_str : string }.

(** What a run leaves behind, in order: the calls of the collaborators
    and the calls and returns of the functions of the program. *)

Inductive event :=
  | Chat (msgs : list message)
  | WebSearch (query : string)
  | WebFetch (url : string)
  | AgentCall (query : string) (context : option string)
  | AgentReturn (final : option string)
  | RenderCall (text : option string)
  | Build (filename : string) (elements : list element)
  | MainCall.

Inductive result (A : Type) : Type :=
  | Ok (a : A)
  | Raise (e : exn)
  | OutOfFuel.
Arguments Ok {A} a.
Arguments Raise {A} e.
Arguments OutOfFuel {A}.

(** The collaborators.  [chat] stands for [client.chat] with the fixed
    model, tool declarations and temperature; the two tools return the
    text [str(result)] of what they fetched; [strftime] reads the clock;
    [build] is [doc.build] of the document backend.  Two of them are pure:
    [paragraph_error text style] is the exception the backend's
    [Paragraph(text, style)] raises, if it raises one (the constructor
    parses its text); [repr] is Python's [repr] of a text, which escapes
    by the interpreter's table of printable characters. *)
Record Client (W : Type) := {
  chat : list message -> W -> (exn + reply) * W;
  web_search : string -> W -> (exn + string) * W;
  web_fetch : string -> W -> (exn + string) * W;
  strftime : string -> W -> string;
  build : string -> list element -> W -> (exn + unit) * W;
  paragraph_error : string -> style -> option exn;
  repr : string -> string
}.
Arguments chat {W} _ _ _.
Arguments web_search {W} _ _ _.
Arguments web_fetch {W} _ _ _.
Arguments strftime {W} _ _ _.
Arguments build {W} _ _ _ _.
Arguments paragraph_error {W} _ _ _.
Arguments repr {W} _ _.

Definition M (W A : Type) : Type := W -> result A * W * list event.

Definition ret {W A} (a : A) : M W A := fun w => (Ok a, w, []).

Definition bind {W A B} (m : M W A) (k : A -> M W B) : M W B :=
  fun w =>
    match m w with
    | (Ok a, w1, ev1) =>
        match k a w1 with (r, w2, ev2) => (r, w2, ev1 ++ ev2) end
    | (Raise e, w1, ev1) => (Raise e, w1, ev1)
    | (OutOfFuel, w1, ev1) => (OutOfFuel, w1, ev1)
    end.

Notation "'let*' x ':=' m 'in' k" := (bind m (fun x => k))
  (at level 10, x name, m at level 100, k at level 200).

Definition raise {W A} (e : exn) : M W A := fun w => (Raise e, w, []).

Definition out_of_fuel {W A} : M W A := fun w => (OutOfFuel, w, []).

Definition emit {W} (e : event) : M W unit := fun w => (Ok tt, w, [e]).

(** A call of a collaborator, logged as [e]. *)
Definition call {W A} (e : event) (f : W -> (exn + A) * W) : M W A :=
  fun w =>
    match f w with
    | (inr a, w1) => (Ok a, w1, [e])
    | (inl x, w1) => (Raise x, w1, [e])
    end.

Definition read {W A} (f : W -> A) : M W A := fun w => (Ok (f w), w, []).

(** [try: m  except Exception as e: h e] *)
Definition try_except {W A} (m : M W A) (h : exn -> M W A) : M W A :=
  fun w =>
    match m w with
    | (Raise e, w1, ev1) =>
        match h e w1 with (r, w2, ev2) => (r, w2, ev1 ++ ev2) end
    | other => other
    end.

(** ** create_search_agent *)

Definition max_iterations : nat := 5.

(** The length tool results are cut to (line 128). *)
Definition result_cap : nat := 8000.

Definition system_prompt : string :=
  "You are a tech news analyst. Focus on finding breakthrough news about AI and technology startups from TechCrunch.".

(** The reply's text when the attribute is there and true (line 102). *)
Definition text_of (r : reply) : option string :=
  match content r with
  | Val (String c s) => Some (String c s)
  | _ => None
  end.

(** The tool calls the reply asks for; none when the attribute is missing,
    [None] or an empty list (line 108). *)
Definition requested (r : reply) : list tool_call :=
  match tool_calls r with
  | Val l => l
  | _ => []
  end.

(** [response.message.content if hasattr(response.message, 'content')
    else ""] (line 145): Python's [None] is [None] here. *)
Definition final_text (r : reply) : option string :=
  match content r with
  | Missing => Some ""
  | PyNone => None
  | Val s => Some s
  end.

(** The content of the tool message a call leaves, by the outcome of the
    [try] body (lines 130-140). *)
Definition tool_reply (out : result string) : string :=
  match out with
  | Ok result_str => result_str
  | Raise e => "Error: " +:+ exn_str e
  | OutOfFuel => ""
  end.

Definition user_content (query : string) (context : option string) : string :=
  match context with
  | Some (String c s) => String c s +:+ nl +:+ nl +:+ query
  | _ => query
  end.

Definition initial_messages (query : string) (context : option string)
  : list message :=
  [Dict system system_prompt; Dict user (user_content query context)].

(** The local variables of the loop. *)
Record loop_state := LoopState {
  messages : list message;
  conversation_history : list string;
  iteration : nat;
  response : option reply
}.

Section Agent.
Context {W : Type} (client : Client W).

(** The choice of the tool (lines 116-125); the value is [str(result)]. *)
Definition dispatch_tool (tc : tool_call) : M W string :=
  let args := tc_arguments tc in
  if String.eqb (tc_name tc) "web_search" then
    match args !! "query" with
    | Some q => call (WebSearch q) (web_search client q)
    | None => raise (Exn "KeyError" "'query'")
    end
  else if String.eqb (tc_name tc) "web_fetch" then
    match args !! "url" with
    | Some u => call (WebFetch u) (web_fetch client u)
    | None => raise (Exn "KeyError" "'url'")
    end
  else ret ("{'error': "
            +:+ repr client ("Unknown tool: " +:+ tc_name tc) +:+ "}").

(** The body of the [try] up to [result_str] (lines 116-128). *)
Definition invoke_tool (tc : tool_call) : M W string :=
  let* result := dispatch_tool tc in
  ret (slice_to result_cap result).

(** One pass of the [for] body (lines 112-140). *)
Definition run_tool_call (tc : tool_call) (msgs : list message)
  : M W (list message) :=
  try_except
    (let* result_str := invoke_tool tc in
     ret (msgs ++ [Dict tool result_str]))
    (fun e => ret (msgs ++ [Dict tool ("Error: " +:+ exn_str e)])).

Fixpoint for_tool_calls (tcs : list tool_call) (msgs : list message)
  : M W (list message) :=
  match tcs with
  | [] => ret msgs
  | tc :: rest =>
      let* msgs1 := run_tool_call tc msgs in for_tool_calls rest msgs1
  end.

(** The state after the reply [r] has been recorded (lines 102-106). *)
Definition record_reply (st : loop_state) (r : reply) : loop_state :=
  {| messages := messages st ++ [Reply r];
     conversation_history :=
       match text_of r with
       | Some c => conversation_history st ++ [c]
       | None => conversation_history st
       end;
     iteration := S (iteration st);
     response := Some r |}.

(** One round of the [while] body; the boolean is false on [break]. *)
Definition round (st : loop_state) : M W (loop_state * bool) :=
  let* r := call (Chat (messages st)) (chat client (messages st)) in
  let st1 := record_reply st r in
  match requested r with
  | [] => ret (st1, false)
  | tcs =>
      let* msgs := for_tool_calls tcs (messages st1) in
      ret ({| messages := msgs;
              conversation_history := conversation_history st1;
              iteration := iteration st1;
              response := response st1 |}, true)
  end.

(** [while iteration < max_iterations: ...] *)
Fixpoint while_loop (fuel : nat) (st : loop_state) : M W loop_state :=
  if iteration st <? max_iterations then
    match fuel with
    | O => out_of_fuel
    | S fuel' =>
        let* step := round st in
        if snd step then while_loop fuel' (fst step) else ret (fst step)
    end
  else ret st.

Definition initial_state (query : string) (context : option string)
  : loop_state :=
  {| messages := initial_messages query context;
     conversation_history := [];
     iteration := 0;
     response := None |}.

(** Line 145.  [response] is unbound when the loop body never ran. *)
Definition final_content (st : loop_state) : M W (option string) :=
  match response st with
  | None => raise (Exn "UnboundLocalError" "response")
  | Some r => ret (final_text r)
  end.

Definition create_search_agent_fuel (fuel : nat)
    (query : string) (context : option string)
  : M W (option string * list string) :=
  let* _ := emit (AgentCall query context) in
  let* st := while_loop fuel (initial_state query context) in
  let* final := final_content st in
  let* _ := emit (AgentReturn final) in
  ret (final, conversation_history st).

Definition create_search_agent := create_search_agent_fuel max_iterations.

End Agent.

(** ** The three stages *)

Definition gather_query : string :=
  "site:techcrunch.com artificial intelligence startups latest news".

Definition gather_context : string :=
  "Find the most important AI and startup news from TechCrunch in the last week. Focus on breakthrough announcements, funding rounds, and major product launches.".

Definition rank_query : string :=
  String.concat nl
    [ "Based on the news you found, identify the TOP 5 most important and breakthrough stories.";
      "    ";
      "    For each story, provide:";
      "    1. Title";
      "    2. Brief summary (2-3 sentences)";
      "    3. Why it's important";
      "    4. Source URL";
      "    ";
      "    Focus on: Major funding announcements, breakthrough AI technologies, significant partnerships, and disruptive startups." ].

Definition elaborate_query : string :=
  String.concat nl
    [ "For each of the top stories you identified, create a detailed summary (4-5 sentences) that includes:";
      "    - What happened";
      "    - Who is involved";
      "    - Why it matters for the AI and startup ecosystem";
      "    - Potential impact";
      "    ";
      "    Format each story clearly with the title, URL, and detailed summary." ].

(** ** generate_pdf_report, paragraph by paragraph *)

(** Lines 275-279. *)
Definition strip_markup (text : string) : string :=
  let text := replace "#" "" (replace "##" "" (replace "###" "" text)) in
  let text := replace "*" "" (replace "**" "" text) in
  replace ")" "" (replace "(" "" (replace "]" "" (replace "[" "" text))).

Definition lead_ins : list string := ["title:"; "source:"; "why it"].

(** Line 283. *)
Definition is_heading (text : string) : bool :=
  existsb (fun h => startswith h (lower text)) lead_ins.

(** The glyph, byte for byte as the source file has it. *)
Definition bullet : string := "â€¢".

(** Lines 287-289. *)
Definition handle_bullets (text : string) : string :=
  if startswith "- " text
  then replace (nl +:+ "- ") (nl +:+ bullet +:+ " ")
         (bullet +:+ " " +:+ slice_from 2 text)
  else text.

(** The body of the [for para in paragraphs] loop up to the call of line
    292: the text and the style that [Paragraph] is called with, [None] on
    [continue]. *)
Definition render_paragraph (para : string) : option element :=
  match strip para with
  | EmptyString => None
  | trimmed =>
      let text := strip_markup trimmed in
      let style := if is_heading text then heading_style else body_style in
      Some (Paragraph (handle_bullets text) style)
  end.

Definition paragraph_elements (text : string) : list element :=
  omap render_paragraph (split (nl +:+ nl) text).

Section Pipeline.
Context {W : Type} (client : Client W).

Definition gather_techcrunch_news : M W (option string) :=
  let* r := create_search_agent client gather_query (Some gather_context) in
  ret (fst r).

Definition analyze_and_rank_news (news_data : option string)
  : M W (option string) :=
  let* r := create_search_agent client rank_query news_data in
  ret (fst r).

Definition create_detailed_summaries (ranked_news : option string)
  : M W (option string) :=
  let* r := create_search_agent client elaborate_query ranked_news in
  ret (fst r).

(** [Paragraph(text, style)]: the element, unless the backend raises. *)
Definition make_paragraph (text : string) (s : style) : M W element :=
  match paragraph_error client text s with
  | Some e => raise e
  | None => ret (Paragraph text s)
  end.

(** The calls of line 292, one for each paragraph that is not skipped,
    in the order of the paragraphs. *)
Fixpoint make_paragraphs (els : list element) : M W (list element) :=
  match els with
  | [] => ret []
  | Paragraph text s :: rest =>
      let* p := make_paragraph text s in
      let* ps := make_paragraphs rest in
      ret (p :: ps)
  | Spacer :: rest =>
      let* ps := make_paragraphs rest in
      ret (Spacer :: ps)
  end.

Definition generate_pdf_report (text : option string) : M W string :=
  let* _ := emit (RenderCall text) in
  let* stamp := read (strftime client "%Y%m%d") in
  let filename := "techcrunch_ai_newsletter_" +:+ stamp +:+ ".pdf" in
  let* title :=
    make_paragraph "TechCrunch AI & Startup Newsletter" title_style in
  let* today := read (strftime client "%B %d, %Y") in
  let* subtitle :=
    make_paragraph ("Weekly Report - " +:+ today) heading_style in
  let header := [title; subtitle; Spacer] in
  match text with
  | None =>
      raise (Exn "AttributeError"
               "'NoneType' object has no attribute 'split'")
  | Some t =>
      let* body := make_paragraphs (paragraph_elements t) in
      let elements := header ++ body in
      let* _ := call (Build filename elements)
                     (build client filename elements) in
      ret filename
  end.

(** The handler of [main] prints and raises again, so it is not seen. *)
Definition main : M W string :=
  let* _ := emit MainCall in
  let* news_data := gather_techcrunch_news in
  let* ranked_news := analyze_and_rank_news news_data in
  let* detailed_summaries := create_detailed_summaries ranked_news in
  generate_pdf_report detailed_summaries.

(** [load_dotenv()] with its defaults: a variable of the .env file is
    added to the environment unless the environment already sets it. *)
Definition load_dotenv (dotenv environ : gmap string string)
  : gmap string string :=
  environ ∪ dotenv.

(** The module run as a script: lines 16-30, then [main()]. *)
Definition script (dotenv environ : gmap string string) : M W string :=
  match load_dotenv dotenv environ !! "OLLAMA_API_KEY" with
  | Some (String c s) => main
  | _ =>
      raise (Exn "ValueError"
               "OLLAMA_API_KEY environment variable is required")
  end.

End Pipeline.

Definition is_network (e : event) : bool :=
  match e with
  | Chat _ | WebSearch _ | WebFetch _ => true
  | _ => false
  end.

Definition is_chat (e : event) : bool :=
  match e with Chat _ => true | _ => false end.

(** The number of rounds a run made: its calls of the chat service. *)
Definition rounds (evs : list event) : nat :=
  length (List.filter is_chat evs).

(** The calls of the two tools. *)
Definition is_tool_event (e : event) : bool :=
  match e with
  | WebSearch _ | WebFetch _ => true
  | _ => false
  end.

(** What the pipeline does at the level of its stages: the calls and
    returns of [create_search_agent] and the calls of the renderer. *)
Definition is_stage_event (e : event) : bool :=
  match e with
  | AgentCall _ _ | AgentReturn _ | RenderCall _ => true
  | _ => false
  end.

Definition stage_events (evs : list event) : list event :=
  List.filter is_stage_event evs.

(** The stage-level events of a run of the pipeline that goes through,
    given what the three stages return. *)
Definition pipeline_trace (out1 out2 out3 : option string) : list event :=
  [ AgentCall gather_query (Some gather_context); AgentReturn out1;
    AgentCall rank_query out1; AgentReturn out2;
    AgentCall elaborate_query out2; AgentReturn out3;
    RenderCall out3 ].

(** ** Notions the specification speaks in *)

(** [needle] occurs somewhere in [hay]. *)
Definition contains (needle hay : string) : Prop :=
  exists pre post, hay = pre +:+ needle +:+ post.

(** Two characters that are the same letter, whatever their case. *)
Definition same_letter (a b : ascii) : Prop :=
  a = b \/ (is_upper a = true /\ b = lower_char a)
        \/ (is_upper b = true /\ a = lower_char b).

(** [s] starts with [h], case not counting. *)
Inductive ci_starts : string -> string -> Prop :=
  | ci_starts_nil s : ci_starts EmptyString s
  | ci_starts_cons a b h s :
      same_letter a b -> ci_starts h s -> ci_starts (String a h) (String b s).

(** No capital letter in [s]. *)
Fixpoint all_lower (s : string) : bool :=
  match s with
  | EmptyString => true
  | String c s' => negb (is_upper c) && all_lower s'
  end.

(** One line of a paragraph with its bullet marker turned into the glyph. *)
Definition bullet_line (line : string) : string :=
  if startswith "- " line then bullet +:+ " " +:+ slice_from 2 line else line.

Definition markup_chars : list ascii :=
  ["#"; "*"; "["; "]"; "("; ")"]%char.

(** [s] without the characters of [cs]. *)
Fixpoint remove_chars (cs : list ascii) (s : string) : string :=
  match s with
  | EmptyString => EmptyString
  | String a s' =>
      if existsb (Ascii.eqb a) cs then remove_chars cs s'
      else String a (remove_chars cs s')
  end.

(** [m] is the tool message that the call [tc] leaves in some world. *)
Definition answers {W : Type} (client : Client W)
    (tc : tool_call) (m : message) : Prop :=
  exists w0, m = Dict tool (tool_reply (invoke_tool client tc w0).1.1).

(** The replies of the chat service among the messages, in order. *)
Definition replies (msgs : list message) : list reply :=
  omap (fun m => match m with Reply r => Some r | Dict _ _ => None end) msgs.

(** The runs of the [while] loop, one rule per way through its body:
    the cap is reached; the chat service raises; the reply asks for no
    tool; the reply asks for tools, each call leaves one tool message, and
    the loop goes on. *)
Inductive loop_run {W : Type} (client : Client W)
  : loop_state -> W -> result loop_state -> W -> list event -> Prop :=
  | run_cap st w :
      max_iterations <= iteration st ->
      loop_run client st w (Ok st) w []
  | run_raise st w e w1 :
      iteration st < max_iterations ->
      chat client (messages st) w = (inl e, w1) ->
      loop_run client st w (Raise e) w1 [Chat (messages st)]
  | run_break st w r w1 :
      iteration st < max_iterations ->
      chat client (messages st) w = (inr r, w1) ->
      requested r = [] ->
      loop_run client st w (Ok (record_reply st r)) w1 [Chat (messages st)]
  | run_continue st w r w1 added w2 ev res w3 ev2 :
      iteration st < max_iterations ->
      chat client (messages st) w = (inr r, w1) ->
      requested r <> [] ->
      Forall (fun e => is_tool_event e = true) ev ->
      Forall2 (answers client) (requested r) added ->
      loop_run client
        {| messages := messages st ++ Reply r :: added;
           conversation_history := conversation_history (record_reply st r);
           iteration := S (iteration st);
           response := Some r |} w2 res w3 ev2 ->
      loop_run client st w res w3 (Chat (messages st) :: ev ++ ev2).

(** ** Further notions *)

(** The shape of what the loop adds to the conversation: round after
    round, the reply and then one tool message for each call the reply
    asks for, in the order of the calls. *)
Inductive transcript {W : Type} (client : Client W) : list message -> Prop :=
  | transcript_nil : transcript client []
  | transcript_round r added rest :
      Forall2 (answers client) (requested r) added ->
      transcript client rest ->
      transcript client (Reply r :: added ++ rest).

(** The conversations a run sent to the chat service, in order. *)
Definition chats (evs : list event) : list (list message) :=
  omap (fun e => match e with Chat msgs => Some msgs | _ => None end) evs.

(** The tool a call reaches, if any: none for an unknown name or a
    missing argument. *)
Definition tool_event_of (tc : tool_call) : option event :=
  if String.eqb (tc_name tc) "web_search" then
    match tc_arguments tc !! "query" with
    | Some q => Some (WebSearch q)
    | None => None
    end
  else if String.eqb (tc_name tc) "web_fetch" then
    match tc_arguments tc !! "url" with
    | Some u => Some (WebFetch u)
    | None => None
    end
  else None.

(** The two tools and the argument each one reads. *)
Definition tool_arguments : list (string * string) :=
  [("web_search", "query"); ("web_fetch", "url")].

(** A text that is whitespace characters from end to end. *)
Inductive blank : string -> Prop :=
  | blank_nil : blank ""
  | blank_cons ws s : In ws whitespace -> blank s -> blank (ws +:+ s).

(** The elements paragraphs leave: none for a blank one, one for any
    other, in the order of the paragraphs. *)
Inductive elements_of : list string -> list element -> Prop :=
  | elements_nil : elements_of [] []
  | elements_skip para paras els :
      blank para -> elements_of paras els ->
      elements_of (para :: paras) els
  | elements_emit para paras el els :
      ~ blank para -> render_paragraph para = Some el ->
      elements_of paras els ->
      elements_of (para :: paras) (el :: els).

(** A text made of markup characters only. *)
Fixpoint only_markup (s : string) : bool :=
  match s with
  | EmptyString => true
  | String a s' => existsb (Ascii.eqb a) markup_chars && only_markup s'
  end.

(** The three elements every document starts with (lines 261-264). *)
Definition report_header (today : string) : list element :=
  [ Paragraph "TechCrunch AI & Startup Newsletter" title_style;
    Paragraph ("Weekly Report - " +:+ today) heading_style;
    Spacer ].

(** The exception the first failing [Paragraph] call raises when the
    elements are made in order, if one fails. *)
Fixpoint first_error {W : Type} (client : Client W) (els : list element)
  : option exn :=
  match els with
  | [] => None
  | Paragraph text s :: rest =>
      match paragraph_error client text s with
      | Some e => Some e
      | None => first_error client rest
      end
  | Spacer :: rest => first_error client rest
  end.

(** The credential the test of line 25 sees: the one of the process
    environment when it sets one, else the one of the .env file. *)
Definition effective_credential (dotenv environ : gmap string string)
  : option string :=
  match environ !! "OLLAMA_API_KEY" with
  | Some v => Some v
  | None => dotenv !! "OLLAMA_API_KEY"
  end.

Definition credential_error : exn :=
  Exn "ValueError" "OLLAMA_API_KEY environment variable is required".

Definition none_text_error : exn :=
  Exn "AttributeError" "'NoneType' object has no attribute 'split'".

(** ** Test doubles *)

(** A chat service that gives the same reply for ever and tools that
    answer by a fixed function; nothing else fails. *)
Definition constant_client (r : reply) (tool : string -> exn + string)
  : Client unit :=
  {| chat := fun _ w => (inr r, w);
     web_search := fun q w => (tool q, w);
     web_fetch := fun u w => (tool u, w);
     strftime := fun _ _ => "today";
     build := fun _ _ w => (inr tt, w);
     paragraph_error := fun _ _ => None;
     repr := repr_ascii |}.

Definition search_call : tool_call :=
  ToolCall "web_search" {[ "query" := "ai startups" ]}.

Definition asks_search : reply := Message (Val "") (Val [search_call]).

Definition plain_answer : reply := Message (Val "All done.") PyNone.

Definition silent_answer : reply := Message PyNone PyNone.

Fixpoint repeat_char (c : ascii) (n : nat) : string :=
  match n with
  | O => EmptyString
  | S k => String c (repeat_char c k)
  end.

Definition tool_ok (q : string) : exn + string := inr ("results for " +:+ q).

Definition tool_down (q : string) : exn + string :=
  inl (Exn "ConnectionError" "connection refused").

Definition tool_verbose_failure (q : string) : exn + string :=
  inl (Exn "ResponseError" (repeat_char "x" 8000)).

(** * Properties of the text operations *)

Lemma append_nil_r (s : string) : s +:+ "" = s.
Proof. induction s as [|c s IH]; simpl; [reflexivity | rewrite IH; reflexivity]. Qed.

Lemma append_assoc (s t u : string) : (s +:+ t) +:+ u = s +:+ t +:+ u.
Proof. induction s as [|c s IH]; simpl; [reflexivity | rewrite IH; reflexivity]. Qed.

Lemma length_slice_to (n : nat) (s : string) :
  char_length (slice_to n s) = Nat.min n (char_length s).
Proof.
  revert n. induction s as [|c s IH]; intros n; [destruct n; reflexivity|].
  cbn [slice_to]. destruct (is_continuation c) eqn:Hc.
  - cbn [char_length]. rewrite Hc. apply IH.
  - destruct n as [|n]; [reflexivity|].
    cbn [char_length]. rewrite Hc, IH. reflexivity.
Qed.

Lemma interleave_nil (s : string) : interleave "" s = s.
Proof. induction s as [|c s IH]; simpl; [reflexivity | rewrite IH; reflexivity]. Qed.

Lemma has_char_cons_false (c a : ascii) (s : string) :
  has_char c (String a s) = false ->
  Ascii.eqb c a = false /\ has_char c s = false.
Proof. simpl. intros H. apply orb_false_elim in H. exact H. Qed.

(** Deleting occurrences brings in no character. *)
Lemma replace_from_keeps_absent (c : ascii) (old : string) (skip : nat) (s : string) :
  has_char c s = false -> has_char c (replace_from old "" skip s) = false.
Proof.
  revert skip. induction s as [|a s IH]; intros skip H; [reflexivity|].
  apply has_char_cons_false in H as [Ha Hs]. simpl.
  destruct skip as [|k]; [|apply IH; exact Hs].
  destruct (startswith old (String a s)); simpl.
  - apply IH; exact Hs.
  - rewrite Ha. apply IH; exact Hs.
Qed.

Lemma replace_keeps_absent (c : ascii) (old s : string) :
  has_char c s = false -> has_char c (replace old "" s) = false.
Proof.
  intros H. destruct old as [|a old]; simpl.
  - rewrite interleave_nil. exact H.
  - apply replace_from_keeps_absent. exact H.
Qed.

(** Deleting a character leaves none of it. *)
Lemma replace_char_removes (c : ascii) (s : string) :
  has_char c (replace (String c "") "" s) = false.
Proof.
  unfold replace. induction s as [|a s IH]; [reflexivity|]. simpl.
  destruct (Ascii.eqb c a) eqn:Hca; simpl.
  - exact IH.
  - rewrite Hca. exact IH.
Qed.

Lemma startswith_has_char (c : ascii) (old s : string) :
  has_char c old = true -> startswith old s = true -> has_char c s = true.
Proof.
  revert s. induction old as [|a old IH]; intros s Hc Hs; [discriminate|].
  destruct s as [|b s]; [discriminate|]. simpl in *.
  apply andb_prop in Hs as [Hab Hs]. apply Ascii.eqb_eq in Hab as <-.
  destruct (Ascii.eqb c a); [reflexivity|]. simpl in *. eauto.
Qed.

(** A text that lacks a character of [old] has no occurrence of [old]. *)
Lemma replace_absent (c : ascii) (old new s : string) :
  has_char c old = true -> has_char c s = false -> replace old new s = s.
Proof.
  intros Hold. destruct old as [|a old]; [discriminate|]. unfold replace.
  induction s as [|b s IH]; intros Hs; [reflexivity|].
  destruct (startswith (String a old) (String b s)) eqn:Hst.
  - rewrite (startswith_has_char c _ _ Hold Hst) in Hs. discriminate.
  - apply has_char_cons_false in Hs as [_ Hs].
    cbn [replace_from]. rewrite Hst, (IH Hs). reflexivity.
Qed.

(** Deleting a character is removing it. *)
Lemma replace_char_removal (c : ascii) (s : string) :
  replace (String c "") "" s = remove_chars [c] s.
Proof.
  unfold replace. induction s as [|a s IH]; [reflexivity|].
  cbn [replace_from startswith remove_chars existsb String.length].
  rewrite andb_true_r, orb_false_r, (Ascii.eqb_sym a c).
  destruct (Ascii.eqb c a); cbn; rewrite IH; reflexivity.
Qed.

Lemma startswith_repeat_cons (c a : ascii) (k : nat) (s : string) :
  startswith (repeat_char c (S k)) (String a s) = true ->
  a = c /\ startswith (repeat_char c k) s = true.
Proof.
  cbn [repeat_char startswith]. intros H. apply andb_prop in H as [Hc Hs].
  apply Ascii.eqb_eq in Hc. auto.
Qed.

Lemma length_repeat_char (c : ascii) (n : nat) :
  String.length (repeat_char c n) = n.
Proof. induction n as [|n IH]; simpl; [reflexivity | rewrite IH; reflexivity]. Qed.

Lemma remove_chars_self (c : ascii) (s : string) :
  remove_chars [c] (String c s) = remove_chars [c] s.
Proof.
  cbn [remove_chars existsb]. rewrite (proj2 (Ascii.eqb_eq c c) eq_refl).
  reflexivity.
Qed.

(** Deleting runs of a character first does not change what is left once
    the character itself is deleted. *)
Lemma replace_run_removal (c : ascii) (m : nat) (s : string) (k : nat) :
  startswith (repeat_char c k) s = true ->
  remove_chars [c] (replace_from (repeat_char c (S m)) "" k s)
  = remove_chars [c] s.
Proof.
  revert k. induction s as [|a s IH]; intros k Hk; [reflexivity|].
  destruct k as [|k].
  - cbn [replace_from].
    destruct (startswith (repeat_char c (S m)) (String a s)) eqn:Hst.
    + apply startswith_repeat_cons in Hst as [-> Hst].
      rewrite length_repeat_char. cbn [String.append].
      replace (S m - 1) with m by lia.
      rewrite (IH m Hst), remove_chars_self. reflexivity.
    + cbn [remove_chars]. rewrite (IH 0 eq_refl). reflexivity.
  - apply startswith_repeat_cons in Hk as [-> Hk].
    cbn [replace_from]. rewrite (IH k Hk), remove_chars_self. reflexivity.
Qed.

Lemma remove_chars_app (cs1 cs2 : list ascii) (s : string) :
  remove_chars cs2 (remove_chars cs1 s) = remove_chars (cs1 ++ cs2) s.
Proof.
  induction s as [|a s IH]; [reflexivity|].
  cbn [remove_chars]. rewrite existsb_app.
  destruct (existsb (Ascii.eqb a) cs1); cbn [orb]; [exact IH|].
  cbn [remove_chars]. rewrite IH. reflexivity.
Qed.

Lemma lower_char_fixed (c : ascii) : is_upper c = false -> lower_char c = c.
Proof. intros H. unfold lower_char. rewrite H. reflexivity. Qed.

(** On a pattern without capitals, [startswith] after [lower] is the
    case-blind prefix test. *)
Lemma startswith_lower (h s : string) :
  all_lower h = true ->
  startswith h (lower s) = true <-> ci_starts h s.
Proof.
  revert s. induction h as [|a h IH]; intros s Hh.
  - split; [constructor | reflexivity].
  - simpl in Hh. apply andb_prop in Hh as [Ha Hh].
    apply negb_true_iff in Ha.
    destruct s as [|b s]; simpl.
    + split; [discriminate | inversion 1].
    + split.
      * intros H. apply andb_prop in H as [Hab H].
        apply Ascii.eqb_eq in Hab. constructor; [|apply IH; assumption].
        destruct (is_upper b) eqn:Hb.
        -- right; right. auto.
        -- left. rewrite Hab. apply lower_char_fixed. exact Hb.
      * inversion 1 as [|a' b' h' s' Hsame Hci]; subst.
        apply andb_true_intro. split; [|apply IH; assumption].
        apply Ascii.eqb_eq.
        destruct Hsame as [->|[[Hup _]|[_ ->]]].
        -- symmetry. apply lower_char_fixed. exact Ha.
        -- congruence.
        -- reflexivity.
Qed.

(** * Properties of the tool-call loop *)

Lemma rounds_app (xs ys : list event) : rounds (xs ++ ys) = rounds xs + rounds ys.
Proof. unfold rounds. rewrite List.filter_app, length_app. reflexivity. Qed.

Lemma rounds_tool_events (evs : list event) :
  Forall (fun e => is_tool_event e = true) evs -> rounds evs = 0.
Proof.
  induction 1 as [|e evs He _ IH]; [reflexivity|].
  unfold rounds in *. destruct e; simpl in *; try discriminate; exact IH.
Qed.

Lemma tool_events_network (evs : list event) :
  Forall (fun e => is_tool_event e = true) evs ->
  Forall (fun e => is_network e = true) evs.
Proof.
  intros H. eapply Forall_impl; [exact H|].
  intros e; destruct e; simpl; congruence.
Qed.

Section AgentFacts.
Context {W : Type} (client : Client W).

Lemma dispatch_tool_events (tc : tool_call) (w : W) :
  Forall (fun e => is_tool_event e = true) (dispatch_tool client tc w).2
  /\ (dispatch_tool client tc w).1.1 <> OutOfFuel.
Proof.
  unfold dispatch_tool, call, raise, ret.
  destruct (String.eqb (tc_name tc) "web_search").
  - destruct (tc_arguments tc !! "query") as [q|]; simpl.
    + destruct (web_search client q w) as [[e|a] w1]; simpl;
        split; try discriminate; repeat constructor.
    + split; [constructor | discriminate].
  - destruct (String.eqb (tc_name tc) "web_fetch").
    + destruct (tc_arguments tc !! "url") as [u|]; simpl.
      * destruct (web_fetch client u w) as [[e|a] w1]; simpl;
          split; try discriminate; repeat constructor.
      * split; [constructor | discriminate].
    + simpl. split; [constructor | discriminate].
Qed.

Lemma invoke_tool_eq (tc : tool_call) (w : W) :
  invoke_tool client tc w =
    match dispatch_tool client tc w with
    | (Ok raw, w1, ev) => (Ok (slice_to result_cap raw), w1, ev)
    | (Raise e, w1, ev) => (Raise e, w1, ev)
    | (OutOfFuel, w1, ev) => (OutOfFuel, w1, ev)
    end.
Proof.
  unfold invoke_tool, bind, ret.
  destruct (dispatch_tool client tc w) as [[[raw|e|] w1] ev];
    rewrite ?app_nil_r; reflexivity.
Qed.

Lemma invoke_tool_events (tc : tool_call) (w : W) :
  Forall (fun e => is_tool_event e = true) (invoke_tool client tc w).2
  /\ (invoke_tool client tc w).1.1 <> OutOfFuel.
Proof.
  rewrite invoke_tool_eq. pose proof (dispatch_tool_events tc w) as H.
  destruct (dispatch_tool client tc w) as [[[raw|e|] w1] ev];
    destruct H as [Hev Hres]; (split; [exact Hev|]); cbn [fst] in *;
    congruence.
Qed.

(** A tool that raises makes the body of the [try] raise. *)
Lemma web_search_failure (tc : tool_call) (q : string) (w w1 : W) (e : exn) :
  tc_name tc = "web_search" ->
  tc_arguments tc !! "query" = Some q ->
  web_search client q w = (inl e, w1) ->
  invoke_tool client tc w = (Raise e, w1, [WebSearch q]).
Proof.
  intros Hn Hq Hs. rewrite invoke_tool_eq. unfold dispatch_tool.
  rewrite Hn, String.eqb_refl, Hq. unfold call. rewrite Hs. reflexivity.
Qed.

Lemma web_fetch_failure (tc : tool_call) (u : string) (w w1 : W) (e : exn) :
  tc_name tc = "web_fetch" ->
  tc_arguments tc !! "url" = Some u ->
  web_fetch client u w = (inl e, w1) ->
  invoke_tool client tc w = (Raise e, w1, [WebFetch u]).
Proof.
  intros Hn Hu Hf. rewrite invoke_tool_eq. unfold dispatch_tool.
  rewrite Hn, String.eqb_refl, Hu.
  change (String.eqb "web_fetch" "web_search") with false.
  unfold call. rewrite Hf. reflexivity.
Qed.

(** The [try] statement as a whole, by the outcome of its body. *)
Lemma run_tool_call_eq (tc : tool_call) (msgs : list message) (w : W) :
  run_tool_call client tc msgs w =
    match invoke_tool client tc w with
    | (Ok s, w1, ev) => (Ok (msgs ++ [Dict tool s]), w1, ev)
    | (Raise e, w1, ev) =>
        (Ok (msgs ++ [Dict tool ("Error: " +:+ exn_str e)]), w1, ev)
    | (OutOfFuel, w1, ev) => (OutOfFuel, w1, ev)
    end.
Proof.
  unfold run_tool_call, try_except, bind, ret.
  destruct (invoke_tool client tc w) as [[[s|e|] w1] ev]; simpl;
    rewrite ?app_nil_r; reflexivity.
Qed.

Lemma run_tool_call_ok (tc : tool_call) (msgs : list message) (w : W) :
  exists m w1 ev,
    run_tool_call client tc msgs w = (Ok (msgs ++ [m]), w1, ev)
    /\ answers client tc m
    /\ Forall (fun e => is_tool_event e = true) ev.
Proof.
  rewrite run_tool_call_eq.
  destruct (invoke_tool_events tc w) as [Hev Hfuel].
  unfold answers.
  destruct (invoke_tool client tc w) as [[[s|e|] w1] ev] eqn:Hinv;
    simpl in *; [| |congruence];
    (eexists _, w1, ev; split; [reflexivity|]; split; [|exact Hev];
     exists w; rewrite Hinv; reflexivity).
Qed.

Lemma for_tool_calls_ok (tcs : list tool_call) (msgs : list message) (w : W) :
  exists added w1 ev,
    for_tool_calls client tcs msgs w = (Ok (msgs ++ added), w1, ev)
    /\ Forall (fun e => is_tool_event e = true) ev
    /\ Forall2 (answers client) tcs added.
Proof.
  revert msgs w. induction tcs as [|tc tcs IH]; intros msgs w; simpl.
  - exists [], w, []. rewrite app_nil_r. repeat split; constructor.
  - unfold bind.
    destruct (run_tool_call_ok tc msgs w) as (m & w1 & ev & -> & Hm & Hev).
    destruct (IH (msgs ++ [m]) w1) as (added & w2 & ev2 & -> & Hev2 & Hadd).
    exists (m :: added), w2, (ev ++ ev2).
    rewrite <- app_assoc. simpl. repeat split.
    + apply Forall_app; auto.
    + constructor; assumption.
Qed.

Lemma round_raise (st : loop_state) (w w1 : W) (e : exn) :
  chat client (messages st) w = (inl e, w1) ->
  round client st w = (Raise e, w1, [Chat (messages st)]).
Proof. intros H. unfold round, bind, call. rewrite H. reflexivity. Qed.

Lemma round_break (st : loop_state) (w w1 : W) (r : reply) :
  chat client (messages st) w = (inr r, w1) ->
  requested r = [] ->
  round client st w = (Ok (record_reply st r, false), w1, [Chat (messages st)]).
Proof.
  intros H Hr. unfold round, bind, call. rewrite H, Hr. reflexivity.
Qed.

Lemma round_continue (st : loop_state) (w w1 : W) (r : reply) :
  chat client (messages st) w = (inr r, w1) ->
  requested r <> [] ->
  exists added w2 ev,
    round client st w =
      (Ok ({| messages := messages st ++ Reply r :: added;
              conversation_history := conversation_history (record_reply st r);
              iteration := S (iteration st);
              response := Some r |}, true), w2, Chat (messages st) :: ev)
    /\ Forall (fun e => is_tool_event e = true) ev
    /\ Forall2 (answers client) (requested r) added.
Proof.
  intros H Hr. unfold round, bind, call. rewrite H.
  destruct (requested r) as [|tc tcs] eqn:Hreq; [congruence|].
  destruct (for_tool_calls_ok (tc :: tcs) (messages (record_reply st r)) w1)
    as (added & w2 & ev & -> & Hev & Hadd).
  exists added, w2, ev. simpl. rewrite <- app_assoc. simpl.
  rewrite app_nil_r. repeat split; auto.
Qed.

Lemma while_loop_done (fuel : nat) (st : loop_state) (w : W) :
  max_iterations <= iteration st ->
  while_loop client fuel st w = (Ok st, w, []).
Proof.
  intros H. destruct fuel; simpl;
    destruct (Nat.ltb_spec (iteration st) max_iterations); try lia;
    reflexivity.
Qed.

Lemma while_loop_step (fuel : nat) (st : loop_state) (w : W) :
  iteration st < max_iterations ->
  while_loop client (S fuel) st w =
    match round client st w with
    | (Ok (st1, true), w1, ev) =>
        match while_loop client fuel st1 w1 with
        | (r, w2, ev2) => (r, w2, ev ++ ev2)
        end
    | (Ok (st1, false), w1, ev) => (Ok st1, w1, ev)
    | (Raise e, w1, ev) => (Raise e, w1, ev)
    | (OutOfFuel, w1, ev) => (OutOfFuel, w1, ev)
    end.
Proof.
  intros H. simpl.
  destruct (Nat.ltb_spec (iteration st) max_iterations); [|lia].
  unfold bind.
  destruct (round client st w) as [[[[st1 [|]]|e|] w1] ev]; simpl;
    unfold ret; rewrite ?app_nil_r; reflexivity.
Qed.

(** With fuel for the rounds that are left, the function follows the
    rules of [loop_run]. *)
Lemma while_loop_run (fuel : nat) (st : loop_state) (w : W) :
  max_iterations <= fuel + iteration st ->
  loop_run client st w
    (while_loop client fuel st w).1.1
    (while_loop client fuel st w).1.2
    (while_loop client fuel st w).2.
Proof.
  revert st w. induction fuel as [|fuel IH]; intros st w Hfuel.
  - rewrite while_loop_done by (simpl in Hfuel; lia).
    apply run_cap. simpl in Hfuel; lia.
  - destruct (Nat.ltb_spec (iteration st) max_iterations) as [Hlt|Hge].
    + rewrite while_loop_step by exact Hlt.
      destruct (chat client (messages st) w) as [[e|r] w1] eqn:Hchat.
      * rewrite (round_raise _ _ _ _ Hchat). simpl.
        apply run_raise; assumption.
      * destruct (requested r) as [|tc tcs] eqn:Hreq.
        -- rewrite (round_break _ _ _ _ Hchat Hreq). simpl.
           apply run_break; assumption.
        -- assert (Hne : requested r <> []) by (rewrite Hreq; discriminate).
           destruct (round_continue _ _ _ _ Hchat Hne)
             as (added & w2 & ev & -> & Hev & Hadd).
           match goal with
           | |- context [while_loop client fuel ?s w2] =>
               specialize (IH s w2); destruct (while_loop client fuel s w2)
                 as [[res w3] ev2]
           end.
           simpl in *. eapply run_continue; eauto.
           apply IH. lia.
    + rewrite while_loop_done by exact Hge. apply run_cap. exact Hge.
Qed.

Lemma while_loop_fuel (fuel fuel' : nat) (st : loop_state) (w : W) :
  max_iterations <= fuel + iteration st ->
  max_iterations <= fuel' + iteration st ->
  while_loop client fuel st w = while_loop client fuel' st w.
Proof.
  revert fuel' st w. induction fuel as [|fuel IH]; intros fuel' st w H H'.
  - rewrite !while_loop_done by (simpl in H; lia). reflexivity.
  - destruct (Nat.ltb_spec (iteration st) max_iterations) as [Hlt|Hge].
    + destruct fuel' as [|fuel']; [simpl in H'; lia|].
      rewrite !while_loop_step by exact Hlt.
      destruct (chat client (messages st) w) as [[e|r] w1] eqn:Hchat.
      * rewrite (round_raise _ _ _ _ Hchat). reflexivity.
      * destruct (requested r) as [|tc tcs] eqn:Hreq.
        -- rewrite (round_break _ _ _ _ Hchat Hreq). reflexivity.
        -- assert (Hne : requested r <> []) by (rewrite Hreq; discriminate).
           destruct (round_continue _ _ _ _ Hchat Hne)
             as (added & w2 & ev & -> & _).
           rewrite (IH fuel'); [reflexivity | simpl; lia | simpl; lia].
    + rewrite !while_loop_done by exact Hge. reflexivity.
Qed.

(** *** What every run of the loop satisfies *)

Lemma loop_run_rounds st w res w' evs :
  loop_run client st w res w' evs ->
  rounds evs <= max_iterations - iteration st.
Proof.
  induction 1 as [st w Hcap | st w e w1 Hlt Hchat | st w r w1 Hlt Hchat Hreq
                 | st w r w1 added w2 ev res w3 ev2 Hlt Hchat Hreq Hev Hadd Hrun IH].
  - unfold rounds; simpl. lia.
  - unfold rounds; simpl. lia.
  - unfold rounds; simpl. lia.
  - change (Chat (messages st) :: ev ++ ev2)
      with ([Chat (messages st)] ++ ev ++ ev2).
    rewrite !rounds_app, (rounds_tool_events ev Hev).
    unfold rounds at 1. unfold max_iterations in *. simpl in *. lia.
Qed.

Lemma loop_run_terminates st w res w' evs :
  loop_run client st w res w' evs -> res <> OutOfFuel.
Proof. induction 1; congruence. Qed.

Lemma loop_run_network st w res w' evs :
  loop_run client st w res w' evs ->
  Forall (fun e => is_network e = true) evs.
Proof.
  induction 1; repeat constructor.
  apply Forall_app; split; [apply tool_events_network|]; assumption.
Qed.

(** An exception that leaves the loop is one the chat service raised. *)
Lemma loop_run_raise st w res w' evs :
  loop_run client st w res w' evs ->
  forall e, res = Raise e ->
  exists msgs w0, chat client msgs w0 = (inl e, w').
Proof.
  induction 1; intros x Hx; try discriminate; eauto.
  injection Hx as ->. eauto.
Qed.

(** A normal exit happens at the cap or after a reply without tool
    calls; in both cases a reply is at hand unless no round ran. *)
Lemma loop_run_exit st w res w' evs :
  loop_run client st w res w' evs ->
  forall st', res = Ok st' ->
  (max_iterations <= iteration st /\ st' = st)
  \/ (exists r, response st' = Some r
               /\ (requested r = [] \/ iteration st' = max_iterations)).
Proof.
  induction 1 as [st w Hcap | st w e w1 Hlt Hchat | st w r w1 Hlt Hchat Hreq
                 | st w r w1 added w2 ev res w3 ev2 Hlt Hchat Hreq Hev Hadd Hrun IH];
    intros st' Hst; try discriminate.
  - injection Hst as <-. left. auto.
  - injection Hst as <-. right. exists r. simpl. auto.
  - destruct (IH st' Hst) as [[Hcap ->]|Hr]; [|right; exact Hr].
    right. exists r. unfold max_iterations in *; simpl in *.
    split; [reflexivity|]. right. lia.
Qed.

(** A chat service that always replies and always asks for a tool keeps
    the loop going up to the cap. *)
Lemma loop_run_always_tools st w res w' evs :
  (forall msgs w0, exists r w1,
      chat client msgs w0 = (inr r, w1) /\ requested r <> []) ->
  loop_run client st w res w' evs ->
  rounds evs = max_iterations - iteration st /\ exists st', res = Ok st'.
Proof.
  intros Hchat.
  induction 1 as [st w Hcap | st w e w1 Hlt Hc | st w r w1 Hlt Hc Hreq
                 | st w r w1 added w2 ev res w3 ev2 Hlt Hc Hreq Hev Hadd Hrun IH].
  - split; [unfold rounds; simpl; lia | eauto].
  - destruct (Hchat (messages st) w) as (r & w2 & Hc' & _). congruence.
  - destruct (Hchat (messages st) w) as (r' & w2 & Hc' & Hne). congruence.
  - destruct IH as [IH1 IH2]. split; [|exact IH2].
    change (Chat (messages st) :: ev ++ ev2)
      with ([Chat (messages st)] ++ ev ++ ev2).
    rewrite !rounds_app, (rounds_tool_events ev Hev), IH1.
    unfold rounds at 1. unfold max_iterations in *. simpl in *. lia.
Qed.

(** A call that succeeds leaves the tool's text cut to the cap. *)
Lemma invoke_tool_truncates (tc : tool_call) (w w1 : W) (s : string)
    (ev : list event) :
  invoke_tool client tc w = (Ok s, w1, ev) ->
  char_length s <= result_cap
  /\ exists raw, s = slice_to result_cap raw
                 /\ (result_cap < char_length raw ->
                     char_length s = result_cap).
Proof.
  intros H.
  rewrite invoke_tool_eq in H.
  destruct (dispatch_tool client tc w) as [[[raw|e|] w2] ev2];
    try discriminate.
  assert (s = slice_to result_cap raw) as -> by congruence.
  rewrite length_slice_to.
  split; [lia|]. exists raw. split; [reflexivity | lia].
Qed.

(** The messages a run adds, the history it collects and the reply it
    ends with. *)
Lemma loop_run_history st w res w' evs :
  loop_run client st w res w' evs ->
  forall st', res = Ok st' ->
  exists new,
    messages st' = messages st ++ new
    /\ conversation_history st'
       = conversation_history st ++ omap text_of (replies new)
    /\ response st' = from_option Some (response st) (last (replies new)).
Proof.
  induction 1 as [st w Hcap | st w e w1 Hlt Hchat | st w r w1 Hlt Hchat Hreq
                 | st w r w1 added w2 ev res w3 ev2 Hlt Hchat Hreq Hev Hadd Hrun IH];
    intros st' Hst; try discriminate.
  - injection Hst as <-. exists []. rewrite !app_nil_r. auto.
  - injection Hst as <-. exists [Reply r]. simpl.
    destruct (text_of r); rewrite ?app_nil_r; auto.
  - destruct (IH st' Hst) as (new & Hm & Hh & Hr). simpl in Hm, Hh, Hr.
    assert (Hnone : replies added = []).
    { clear -Hadd. induction Hadd as [|tc m tcs ms [w0 ->] _ IHa];
        [reflexivity | exact IHa]. }
    assert (Hrs : replies (Reply r :: added ++ new) = r :: replies new).
    { unfold replies. simpl. rewrite omap_app. fold (replies added).
      rewrite Hnone. reflexivity. }
    exists (Reply r :: added ++ new). rewrite Hrs. repeat split.
    + rewrite Hm, <- app_assoc. reflexivity.
    + rewrite Hh. simpl. destruct (text_of r); simpl;
        rewrite <- ?app_assoc; reflexivity.
    + rewrite Hr. destruct (replies new) as [|r0 rs] eqn:Hn using rev_ind;
        [reflexivity|]. rewrite app_comm_cons, !last_snoc. reflexivity.
Qed.

End AgentFacts.

(** * create_search_agent as a whole *)

Section AgentClaims.
Context {W : Type} (client : Client W).

(** The function by the outcome of its loop. *)
Lemma create_search_agent_eq (fuel : nat) (q : string) (c : option string) (w : W) :
  create_search_agent_fuel client fuel q c w =
    match while_loop client fuel (initial_state q c) w with
    | (Ok st, w1, ev) =>
        match response st with
        | Some r =>
            (Ok (final_text r, conversation_history st), w1,
             AgentCall q c :: ev ++ [AgentReturn (final_text r)])
        | None =>
            (Raise (Exn "UnboundLocalError" "response"), w1,
             AgentCall q c :: ev)
        end
    | (Raise e, w1, ev) => (Raise e, w1, AgentCall q c :: ev)
    | (OutOfFuel, w1, ev) => (OutOfFuel, w1, AgentCall q c :: ev)
    end.
Proof.
  unfold create_search_agent_fuel, bind, emit, final_content.
  destruct (while_loop client fuel (initial_state q c) w)
    as [[[st|e|] w1] ev]; simpl; try reflexivity.
  destruct (response st) as [r|]; simpl; unfold raise, ret; simpl;
    rewrite ?app_nil_r; reflexivity.
Qed.

Lemma initial_run (q : string) (c : option string) (w : W) :
  loop_run client (initial_state q c) w
    (while_loop client max_iterations (initial_state q c) w).1.1
    (while_loop client max_iterations (initial_state q c) w).1.2
    (while_loop client max_iterations (initial_state q c) w).2.
Proof. apply while_loop_run. unfold max_iterations. simpl. lia. Qed.

(** After a loop that started at round 0 returned, a reply is at hand. *)
Lemma initial_run_response (q : string) (c : option string) (w : W)
    (st : loop_state) (w1 : W) (ev : list event) :
  while_loop client max_iterations (initial_state q c) w = (Ok st, w1, ev) ->
  exists r, response st = Some r
            /\ (requested r = [] \/ iteration st = max_iterations).
Proof.
  intros H. pose proof (initial_run q c w) as Hrun. rewrite H in Hrun.
  destruct (loop_run_exit client _ _ _ _ _ Hrun st eq_refl)
    as [[Hcap _]|Hr]; [|exact Hr].
  unfold max_iterations in Hcap; simpl in Hcap; lia.
Qed.

Lemma rounds_agent_call (q : string) (c : option string) (ev : list event) :
  rounds (AgentCall q c :: ev) = rounds ev.
Proof. reflexivity. Qed.

Lemma rounds_agent_return (ev : list event) (final : option string) :
  rounds (ev ++ [AgentReturn final]) = rounds ev.
Proof. rewrite rounds_app. unfold rounds at 2. simpl. lia. Qed.

(** What a call that comes back returns: [final_text] of the last reply
    and the non-empty reply texts in the order the replies came. *)
Lemma create_search_agent_returns (q : string) (c : option string) (w : W)
    (st : loop_state) (w1 : W) (ev : list event) :
  while_loop client max_iterations (initial_state q c) w = (Ok st, w1, ev) ->
  exists r,
    last (replies (messages st)) = Some r
    /\ create_search_agent client q c w
       = (Ok (final_text r, omap text_of (replies (messages st))), w1,
          AgentCall q c :: ev ++ [AgentReturn (final_text r)]).
Proof.
  intros H. pose proof (initial_run q c w) as Hrun.
  destruct (initial_run_response q c w st w1 ev H) as (r & Hr & _).
  rewrite H in Hrun. simpl in Hrun.
  destruct (loop_run_history client _ _ _ _ _ Hrun st eq_refl)
    as (new & Hm & Hh & Hl).
  simpl in Hm, Hh, Hl. exists r.
  assert (Hreplies : replies (messages st) = replies new).
  { rewrite Hm. reflexivity. }
  rewrite Hreplies. split.
  - rewrite Hr in Hl. destruct (last (replies new)); simpl in Hl; congruence.
  - unfold create_search_agent. rewrite create_search_agent_eq, H, Hr, Hh.
    reflexivity.
Qed.

(** C1.  Whatever the chat service and the tools do, a call of
    [create_search_agent] makes at most 5 rounds of chat-service calls
    and comes back: no fuel beyond the 5 rounds changes the run, and the
    run never ends for want of fuel.  When the chat service always
    replies with a request for a tool, the call makes exactly 5 rounds
    and then returns. *)
Theorem agent_rounds_bounded (q : string) (c : option string) (w : W) :
  (forall fuel, max_iterations <= fuel ->
     create_search_agent_fuel client fuel q c w
     = create_search_agent client q c w)
  /\ (create_search_agent client q c w).1.1 <> OutOfFuel
  /\ rounds (create_search_agent client q c w).2 <= 5
  /\ ((forall msgs w0, exists r w1,
          chat client msgs w0 = (inr r, w1) /\ requested r <> []) ->
      rounds (create_search_agent client q c w).2 = 5
      /\ exists out, (create_search_agent client q c w).1.1 = Ok out).
Proof.
  pose proof (initial_run q c w) as Hrun.
  pose proof (initial_run_response q c w) as Hresp.
  split; [|split; [|split]].
  - intros fuel Hfuel. unfold create_search_agent.
    rewrite !create_search_agent_eq.
    rewrite (while_loop_fuel client fuel max_iterations); [reflexivity| |];
      unfold max_iterations in *; simpl; lia.
  - unfold create_search_agent. rewrite create_search_agent_eq.
    pose proof (loop_run_terminates client _ _ _ _ _ Hrun) as Hterm.
    destruct (while_loop client max_iterations (initial_state q c) w)
      as [[[st|e|] w1] ev]; simpl in *; try congruence.
    destruct (response st); simpl; congruence.
  - unfold create_search_agent. rewrite create_search_agent_eq.
    pose proof (loop_run_rounds client _ _ _ _ _ Hrun) as Hle.
    destruct (while_loop client max_iterations (initial_state q c) w)
      as [[[st|e|] w1] ev]; simpl in *;
      [destruct (response st); simpl|..];
      rewrite ?rounds_agent_call, ?rounds_agent_return;
      unfold max_iterations in Hle; lia.
  - intros Hchat. unfold create_search_agent. rewrite create_search_agent_eq.
    destruct (loop_run_always_tools client _ _ _ _ _ Hchat Hrun)
      as [Hn [st' Hst']].
    destruct (while_loop client max_iterations (initial_state q c) w)
      as [[res w1] ev]; simpl in *. subst res.
    destruct (Hresp st' w1 ev eq_refl) as (r & -> & _). simpl.
    rewrite rounds_agent_call, rounds_agent_return.
    split; [exact Hn | eauto].
Qed.

(** C2.  A failure raised while a tool is invoked, by the search, by the
    fetch or anywhere else in the body of the [try], is caught for that
    one call and leaves a tool message whose content holds the error
    text; after a reply that asks for tools every call has left its tool
    message, failed or not, and the loop goes on with the next round; an
    exception that leaves [create_search_agent] is one the chat service
    raised, never a tool's. *)
Theorem tool_failure_absorbed :
  (forall tc msgs w e w1 ev,
      invoke_tool client tc w = (Raise e, w1, ev) ->
      run_tool_call client tc msgs w
      = (Ok (msgs ++ [Dict tool ("Error: " +:+ exn_str e)]), w1, ev)
      /\ contains (exn_str e) ("Error: " +:+ exn_str e))
  /\ (forall tc q w e w1,
      tc_name tc = "web_search" ->
      tc_arguments tc !! "query" = Some q ->
      web_search client q w = (inl e, w1) ->
      invoke_tool client tc w = (Raise e, w1, [WebSearch q]))
  /\ (forall tc u w e w1,
      tc_name tc = "web_fetch" ->
      tc_arguments tc !! "url" = Some u ->
      web_fetch client u w = (inl e, w1) ->
      invoke_tool client tc w = (Raise e, w1, [WebFetch u]))
  /\ (forall fuel st w r w1,
      iteration st < max_iterations ->
      chat client (messages st) w = (inr r, w1) ->
      requested r <> [] ->
      exists added w2 ev,
        Forall2 (answers client) (requested r) added
        /\ while_loop client (S fuel) st w
           = match while_loop client fuel
                     {| messages := messages st ++ Reply r :: added;
                        conversation_history :=
                          conversation_history (record_reply st r);
                        iteration := S (iteration st);
                        response := Some r |} w2 with
             | (res, w3, ev2) => (res, w3, Chat (messages st) :: ev ++ ev2)
             end)
  /\ (forall q c w e w1 ev,
      create_search_agent client q c w = (Raise e, w1, ev) ->
      exists msgs w0, chat client msgs w0 = (inl e, w1)).
Proof.
  split; [|split; [|split; [|split]]].
  - intros tc msgs w e w1 ev H. rewrite run_tool_call_eq, H.
    split; [reflexivity|]. exists "Error: ", "".
    rewrite append_nil_r. reflexivity.
  - intros tc q w e w1. apply web_search_failure.
  - intros tc u w e w1. apply web_fetch_failure.
  - intros fuel st w r w1 Hlt Hchat Hreq.
    destruct (round_continue client _ _ _ _ Hchat Hreq)
      as (added & w2 & ev & Hround & Hev & Hadd).
    exists added, w2, ev. split; [exact Hadd|].
    rewrite while_loop_step by exact Hlt. rewrite Hround. reflexivity.
  - intros q c w e w1 ev H. unfold create_search_agent in H.
    rewrite create_search_agent_eq in H.
    pose proof (initial_run q c w) as Hrun.
    pose proof (initial_run_response q c w) as Hresp.
    destruct (while_loop client max_iterations (initial_state q c) w)
      as [[[st|x|] w2] ev2]; simpl in *.
    + destruct (Hresp st w2 ev2 eq_refl) as (r & Hr & _).
      rewrite Hr in H. discriminate.
    + injection H as -> -> _.
      eapply loop_run_raise; [exact Hrun | reflexivity].
    + discriminate.
Qed.

(** C4.  In any round, a reply that asks for no tool call ends the loop
    with that round; a loop that was entered and returned did so after
    such a reply or at the cap; and a first reply without tool calls
    makes [create_search_agent] return after exactly one round. *)
Theorem loop_stops_without_tool_calls :
  (forall fuel st w r w1,
      iteration st < max_iterations ->
      chat client (messages st) w = (inr r, w1) ->
      requested r = [] ->
      while_loop client (S fuel) st w
      = (Ok (record_reply st r), w1, [Chat (messages st)]))
  /\ (forall fuel st w st' w' ev,
      max_iterations <= fuel + iteration st ->
      iteration st < max_iterations ->
      while_loop client fuel st w = (Ok st', w', ev) ->
      exists r, response st' = Some r
                /\ (requested r = [] \/ iteration st' = max_iterations))
  /\ (forall q c w r w1,
      chat client (initial_messages q c) w = (inr r, w1) ->
      requested r = [] ->
      create_search_agent client q c w
      = (Ok (final_text r, from_option (fun t => [t]) [] (text_of r)), w1,
         [AgentCall q c; Chat (initial_messages q c);
          AgentReturn (final_text r)])
      /\ rounds (create_search_agent client q c w).2 = 1).
Proof.
  assert (Hstop : forall fuel st w r w1,
      iteration st < max_iterations ->
      chat client (messages st) w = (inr r, w1) ->
      requested r = [] ->
      while_loop client (S fuel) st w
      = (Ok (record_reply st r), w1, [Chat (messages st)])).
  { intros fuel st w r w1 Hlt Hchat Hreq.
    rewrite while_loop_step by exact Hlt.
    rewrite (round_break client _ _ _ _ Hchat Hreq). reflexivity. }
  split; [exact Hstop|split].
  - intros fuel st w st' w' ev Hfuel Hlt H.
    pose proof (while_loop_run client fuel st w Hfuel) as Hrun.
    rewrite H in Hrun. simpl in Hrun.
    destruct (loop_run_exit client _ _ _ _ _ Hrun st' eq_refl)
      as [[Hcap _]|Hr]; [lia | exact Hr].
  - intros q c w r w1 Hchat Hreq.
    assert (Heq : create_search_agent client q c w
      = (Ok (final_text r, from_option (fun t => [t]) [] (text_of r)), w1,
         [AgentCall q c; Chat (initial_messages q c);
          AgentReturn (final_text r)])).
    { unfold create_search_agent. rewrite create_search_agent_eq.
      unfold max_iterations.
      rewrite (Hstop 4 (initial_state q c) w r w1);
        [|unfold max_iterations; simpl; lia|exact Hchat|exact Hreq].
      simpl. destruct (text_of r); reflexivity. }
    split; [exact Heq|]. rewrite Heq. reflexivity.
Qed.

End AgentClaims.

(** ** Runs against the test doubles *)

(** A chat service that asks for a search in every reply: five rounds. *)
Lemma agent_rounds_bounded_witness :
  rounds (create_search_agent (constant_client asks_search tool_ok)
            gather_query (Some gather_context) tt).2 = 5.
Proof.
  apply (agent_rounds_bounded (constant_client asks_search tool_ok)).
  intros msgs w0. exists asks_search, w0. split; [reflexivity | discriminate].
Defined.

(** A search that fails: the failure ends up in a tool message. *)
Lemma tool_failure_absorbed_witness :
  run_tool_call (constant_client asks_search tool_down) search_call [] tt
  = (Ok [Dict tool "Error: connection refused"], tt, [WebSearch "ai startups"]).
Proof.
  apply (proj1 (tool_failure_absorbed (constant_client asks_search tool_down))
           search_call [] tt (Exn "ConnectionError" "connection refused") tt
           [WebSearch "ai startups"]).
  vm_compute. reflexivity.
Defined.

(** A first reply without tool calls: one round. *)
Lemma loop_stops_without_tool_calls_witness :
  rounds (create_search_agent (constant_client plain_answer tool_ok)
            gather_query (Some gather_context) tt).2 = 1.
Proof.
  apply (proj2 (proj2 (loop_stops_without_tool_calls
                         (constant_client plain_answer tool_ok)))
           gather_query (Some gather_context) tt plain_answer tt);
    reflexivity.
Defined.

(** C3.  The code at the failing input: the chat service replies with a
    message whose content is [None] and that asks for no tool.  The call
    returns [None] as the final text where the specification says the
    empty string; line 145 looks only at the presence of the attribute,
    while line 102 also tests its value. *)
Theorem silent_reply_returns_none :
  create_search_agent (constant_client silent_answer tool_ok)
    gather_query (Some gather_context) tt
  = (Ok (None, []), tt,
     [AgentCall gather_query (Some gather_context);
      Chat (initial_messages gather_query (Some gather_context));
      AgentReturn None]).
Proof. vm_compute. reflexivity. Qed.

(** C5.  The code at the failing input: the search raises an exception
    whose text is 8000 characters long.  The tool message the round adds
    to the conversation is 8007 characters long: the handler of line 135
    appends the error text uncut, while line 128 cuts what a successful
    call returns. *)
Theorem failed_call_message_exceeds_cap :
  match (round (constant_client asks_search tool_verbose_failure)
           (initial_state gather_query (Some gather_context)) tt).1.1 with
  | Ok (st, _) =>
      last (messages st) = Some (Dict tool ("Error: " +:+ repeat_char "x" 8000))
  | _ => False
  end
  /\ String.length ("Error: " +:+ repeat_char "x" 8000) = 8007
  /\ result_cap = 8000.
Proof. vm_compute. repeat split; reflexivity. Qed.

(** * The renderer, paragraph by paragraph *)

Lemma strip_markup_absent (text : string) :
  Forall (fun c => has_char c (strip_markup text) = false) markup_chars.
Proof.
  unfold strip_markup, markup_chars.
  repeat constructor;
    repeat first [ apply replace_char_removes | apply replace_keeps_absent ].
Qed.

(** The whole of [strip_markup]: the six characters are removed and
    nothing else is touched. *)
Lemma strip_markup_removal (text : string) :
  strip_markup text = remove_chars markup_chars text.
Proof.
  unfold strip_markup. rewrite !replace_char_removal.
  change (replace "##" "" (replace "###" "" text))
    with (replace_from (repeat_char "#" 2) "" 0
            (replace_from (repeat_char "#" 3) "" 0 text)).
  change (replace "**" "") with (replace_from (repeat_char "*" 2) "" 0).
  rewrite !replace_run_removal by reflexivity.
  rewrite !remove_chars_app. reflexivity.
Qed.

(** C10.  [strip_markup] removes every #, *, [, ], ( and ) and nothing
    else; the text it yields holds none of these characters; stripping
    that text once more changes nothing. *)
Theorem strip_markup_idempotent (text : string) :
  strip_markup text = remove_chars markup_chars text
  /\ Forall (fun c => has_char c (strip_markup text) = false) markup_chars
  /\ strip_markup (strip_markup text) = strip_markup text.
Proof.
  split; [apply strip_markup_removal|].
  pose proof (strip_markup_absent text) as H. split; [exact H|].
  unfold markup_chars in H.
  repeat match goal with
         | H : Forall _ (_ :: _) |- _ =>
             let Hc := fresh "Hc" in apply Forall_cons in H as [Hc H]
         end.
  set (s := strip_markup text) in *. unfold strip_markup.
  rewrite (replace_absent "#" "###" "" s) by (reflexivity || assumption).
  rewrite (replace_absent "#" "##" "" s) by (reflexivity || assumption).
  rewrite (replace_absent "#" "#" "" s) by (reflexivity || assumption).
  rewrite (replace_absent "*" "**" "" s) by (reflexivity || assumption).
  rewrite (replace_absent "*" "*" "" s) by (reflexivity || assumption).
  rewrite (replace_absent "[" "[" "" s) by (reflexivity || assumption).
  rewrite (replace_absent "]" "]" "" s) by (reflexivity || assumption).
  rewrite (replace_absent "(" "(" "" s) by (reflexivity || assumption).
  rewrite (replace_absent ")" ")" "" s) by (reflexivity || assumption).
  reflexivity.
Qed.

Lemma is_heading_spec (text : string) :
  is_heading text = true <-> exists h, In h lead_ins /\ ci_starts h text.
Proof.
  unfold is_heading. rewrite existsb_exists. split.
  - intros (h & Hin & Hst). exists h. split; [exact Hin|].
    apply startswith_lower; [|exact Hst].
    simpl in Hin. destruct Hin as [<-|[<-|[<-|[]]]]; reflexivity.
  - intros (h & Hin & Hci). exists h. split; [exact Hin|].
    apply startswith_lower; [|exact Hci].
    simpl in Hin. destruct Hin as [<-|[<-|[<-|[]]]]; reflexivity.
Qed.

Lemma is_heading_tokens (text : string) :
  is_heading text = true
  <-> ci_starts "title:" text \/ ci_starts "source:" text
      \/ ci_starts "why it" text.
Proof.
  rewrite is_heading_spec. unfold lead_ins. split.
  - intros (h & Hin & Hci). cbn [In] in Hin.
    destruct Hin as [<-|[<-|[<-|[]]]]; auto.
  - intros [H|[H|H]]; eexists; (split; [|exact H]); cbn [In]; auto.
Qed.

(** C7.  A paragraph that is not blank after trimming is handed to
    [Paragraph] with its text trimmed, stripped of markup and with its
    bullets converted; the style is the heading style exactly when the
    text after markup stripping starts, case not counting, with title:,
    with source: or with why it, and the body style exactly when it
    starts with none of the three. *)
Theorem heading_iff_lead_in (para : string) :
  strip para <> "" ->
  exists sty,
    render_paragraph para
    = Some (Paragraph (handle_bullets (strip_markup (strip para))) sty)
    /\ (sty = heading_style <->
        ci_starts "title:" (strip_markup (strip para))
        \/ ci_starts "source:" (strip_markup (strip para))
        \/ ci_starts "why it" (strip_markup (strip para)))
    /\ (sty = body_style <->
        ~ (ci_starts "title:" (strip_markup (strip para))
           \/ ci_starts "source:" (strip_markup (strip para))
           \/ ci_starts "why it" (strip_markup (strip para)))).
Proof.
  intros Hne. unfold render_paragraph.
  destruct (strip para) as [|c s] eqn:Hs; [congruence|].
  pose proof (is_heading_tokens (strip_markup (String c s))) as Hspec.
  destruct (is_heading (strip_markup (String c s))) eqn:Hh.
  - exists heading_style. split; [reflexivity|]. split.
    + split; [intros _; apply Hspec; reflexivity | reflexivity].
    + split; [discriminate|]. intros Hn. exfalso. apply Hn, Hspec. reflexivity.
  - exists body_style. split; [reflexivity|]. split.
    + split; [discriminate|]. intros He. apply Hspec in He. discriminate.
    + split; [|reflexivity]. intros _ He. apply Hspec in He. discriminate.
Qed.

(** A no-break space before the token is trimmed like any blank, and the
    capitals of the token do not count. *)
Lemma heading_iff_lead_in_witness :
  render_paragraph (bytes [194; 160] +:+ "TITLE: Example")
  = Some (Paragraph "TITLE: Example" heading_style).
Proof.
  destruct (heading_iff_lead_in (bytes [194; 160] +:+ "TITLE: Example"))
    as (sty & Hr & Hh & _); [discriminate|].
  rewrite Hr. f_equal. f_equal. apply Hh. left.
  apply startswith_lower; reflexivity.
Defined.

(** ** Bullets *)

Lemma split_from_nonempty (sep : string) (skip : nat) (s : string) :
  split_from sep skip s <> [].
Proof.
  revert skip. induction s as [|c s IH]; intros skip; [discriminate|].
  cbn [split_from]. destruct skip as [|k]; [|apply IH].
  destruct (startswith sep (String c s)); [discriminate|].
  destruct (split_from sep 0 s); discriminate.
Qed.

(** Splitting at line breaks, one character at a time. *)
Lemma split_nl_cons (c : ascii) (s : string) :
  split nl (String c s) =
    if Ascii.eqb "010" c then "" :: split nl s
    else match split nl s with
         | l :: ls => String c l :: ls
         | [] => [String c ""]
         end.
Proof.
  unfold split, nl. cbn [split_from startswith].
  destruct (Ascii.eqb "010" c); reflexivity.
Qed.

Lemma concat_cons_char (c : ascii) (l : string) (ls : list string) :
  String.concat nl (String c l :: ls) = String c (String.concat nl (l :: ls)).
Proof. destruct ls; reflexivity. Qed.

Lemma concat_nil_cons (l : string) (ls : list string) :
  String.concat nl ("" :: l :: ls) = nl +:+ String.concat nl (l :: ls).
Proof. reflexivity. Qed.

Lemma concat_cons_app (p l : string) (ls : list string) :
  String.concat nl ((p +:+ l) :: ls) = p +:+ String.concat nl (l :: ls).
Proof.
  induction p as [|c p IH]; [reflexivity|].
  change (String c p +:+ l) with (String c (p +:+ l)).
  rewrite concat_cons_char, IH. reflexivity.
Qed.

(** The first line starts like the text, up to the first line break. *)
Lemma first_line_starts (p s l : string) (ls : list string) :
  has_char "010" p = false ->
  split nl s = l :: ls -> startswith p l = startswith p s.
Proof.
  revert s l ls. induction p as [|d p IH]; intros s l ls Hp Hs; [reflexivity|].
  apply has_char_cons_false in Hp as [Hd Hp].
  destruct s as [|a s]; [injection Hs as <- _; reflexivity|].
  rewrite split_nl_cons in Hs.
  destruct (Ascii.eqb "010" a) eqn:Ha.
  - apply Ascii.eqb_eq in Ha as <-. injection Hs as <- _.
    cbn [startswith]. rewrite Ascii.eqb_sym, Hd. reflexivity.
  - destruct (split nl s) as [|l' ls'] eqn:Hs';
      [destruct (split_from_nonempty _ _ _ Hs')|].
    injection Hs as <- _. cbn [startswith].
    rewrite (IH s l' ls' Hp Hs'). reflexivity.
Qed.

Lemma first_line_marker (s l : string) (ls : list string) :
  split nl s = l :: ls -> startswith "- " l = startswith "- " s.
Proof. apply first_line_starts. reflexivity. Qed.

Lemma startswith_marker (s : string) :
  startswith "- " s = true -> exists rest, s = "- " +:+ rest.
Proof.
  destruct s as [|a [|b s]]; cbn [startswith]; intros H.
  - discriminate.
  - rewrite andb_false_r in H. discriminate.
  - apply andb_prop in H as [Ha Hb]. apply andb_prop in Hb as [Hb _].
    apply Ascii.eqb_eq in Ha as <-. apply Ascii.eqb_eq in Hb as <-.
    exists s. reflexivity.
Qed.

Lemma split_nl_marker (s : string) :
  split nl ("- " +:+ s) =
    match split nl s with
    | l :: ls => ("- " +:+ l) :: ls
    | [] => ["- "]
    end.
Proof.
  change ("- " +:+ s) with (String "-" (String " " s)).
  rewrite !split_nl_cons. change (Ascii.eqb "010" "-") with false.
  change (Ascii.eqb "010" " ") with false. cbn iota.
  destruct (split nl s); reflexivity.
Qed.

Lemma replace_marker_hit (s : string) :
  replace (nl +:+ "- ") (nl +:+ bullet +:+ " ") (nl +:+ "- " +:+ s)
  = nl +:+ bullet +:+ " " +:+ replace (nl +:+ "- ") (nl +:+ bullet +:+ " ") s.
Proof. reflexivity. Qed.

Lemma startswith_nl_marker (c : ascii) (s : string) :
  startswith (nl +:+ "- ") (String c s)
  = Ascii.eqb "010" c && startswith "- " s.
Proof. reflexivity. Qed.

Lemma replace_marker_miss (c : ascii) (s : string) :
  startswith (nl +:+ "- ") (String c s) = false ->
  replace (nl +:+ "- ") (nl +:+ bullet +:+ " ") (String c s)
  = String c (replace (nl +:+ "- ") (nl +:+ bullet +:+ " ") s).
Proof.
  intros H. unfold replace.
  change (nl +:+ "- ") with (String "010" "- ") in *.
  cbn [replace_from]. rewrite H. reflexivity.
Qed.

(** Replacing the marker after every line break converts every line
    but the first. *)
Lemma replace_marker_lines (n : nat) (s : string) :
  String.length s <= n ->
  replace (nl +:+ "- ") (nl +:+ bullet +:+ " ") s =
    match split nl s with
    | l :: ls => String.concat nl (l :: map bullet_line ls)
    | [] => ""
    end.
Proof.
  revert s. induction n as [|n IH]; intros s Hlen.
  - destruct s; [reflexivity | simpl in Hlen; lia].
  - destruct s as [|c s]; [reflexivity|]. simpl in Hlen.
    rewrite split_nl_cons.
    destruct (Ascii.eqb "010" c) eqn:Hc.
    + apply Ascii.eqb_eq in Hc as <-.
      destruct (split nl s) as [|l ls] eqn:Hs;
        [destruct (split_from_nonempty _ _ _ Hs)|].
      cbn [map]. rewrite concat_nil_cons.
      destruct (startswith "- " s) eqn:Hm.
      * apply startswith_marker in Hm as [rest ->].
        change (String "010" ("- " +:+ rest)) with (nl +:+ "- " +:+ rest).
        rewrite replace_marker_hit, (IH rest) by (simpl in Hlen; lia).
        rewrite split_nl_marker in Hs.
        destruct (split nl rest) as [|l0 ls0] eqn:Hs0;
          [destruct (split_from_nonempty _ _ _ Hs0)|].
        injection Hs as <- <-.
        change (bullet_line (String "-" (String " " l0)))
          with ((bullet +:+ " ") +:+ l0).
        rewrite concat_cons_app, append_assoc. reflexivity.
      * rewrite replace_marker_miss
          by (rewrite startswith_nl_marker, Hm; reflexivity).
        rewrite (IH s), Hs by lia.
        unfold bullet_line at 2.
        rewrite (first_line_marker s l ls Hs), Hm. reflexivity.
    + rewrite replace_marker_miss
        by (rewrite startswith_nl_marker, Hc; reflexivity).
      rewrite (IH s) by lia.
      destruct (split nl s) as [|l ls] eqn:Hs;
        [destruct (split_from_nonempty _ _ _ Hs)|].
      rewrite concat_cons_char. reflexivity.
Qed.

(** What [handle_bullets] does to a text that starts with the marker:
    every line that starts with the marker gets the glyph instead. *)
Lemma handle_bullets_lines (text : string) :
  startswith "- " text = true ->
  handle_bullets text = String.concat nl (map bullet_line (split nl text)).
Proof.
  intros Hm. unfold handle_bullets. rewrite Hm.
  apply startswith_marker in Hm as [s ->].
  change (slice_from 2 ("- " +:+ s)) with s.
  rewrite split_nl_marker.
  pose proof (replace_marker_lines (String.length s) s (Nat.le_refl _)) as Hr.
  destruct (split nl s) as [|l ls] eqn:Hs;
    [destruct (split_from_nonempty _ _ _ Hs)|].
  cbn [map].
  change (bullet_line ("- " +:+ l)) with ((bullet +:+ " ") +:+ l).
  rewrite concat_cons_app, <- Hr. reflexivity.
Qed.

(** C8, as amended.  When the text of a paragraph, after trimming and
    markup stripping, starts with the marker "- ", the paragraph is
    emitted with the glyph in place of the marker at the start of every
    line of that text that starts with the marker: the first line, and
    each line after a line break. *)
Theorem bullets_converted (para : string) :
  startswith "- " (strip_markup (strip para)) = true ->
  exists sty,
    render_paragraph para
    = Some (Paragraph
              (String.concat nl
                 (map bullet_line (split nl (strip_markup (strip para)))))
              sty).
Proof.
  intros Hm. unfold render_paragraph.
  destruct (strip para) as [|c s] eqn:Hs; [discriminate|].
  rewrite (handle_bullets_lines _ Hm). eexists. reflexivity.
Qed.

Lemma bullets_converted_witness :
  exists sty,
    render_paragraph ("- point one" +:+ nl +:+ "- point two")
    = Some (Paragraph (bullet +:+ " point one" +:+ nl +:+ bullet +:+ " point two")
              sty).
Proof.
  apply (bullets_converted ("- point one" +:+ nl +:+ "- point two")).
  reflexivity.
Defined.

(** C8 as stated fails on the paragraph made of the marker alone: it
    begins with "- ", yet trimming leaves "-" and no glyph is written. *)
Lemma bare_marker_not_converted :
  startswith "- " "- " = true
  /\ render_paragraph "- " = Some (Paragraph "-" body_style).
Proof. split; reflexivity. Qed.

(** The example of the specification's section 8. *)
Example paragraph_elements_example :
  paragraph_elements
    ("Title: Example" +:+ nl +:+ nl +:+ "Some **bold** body text."
     +:+ nl +:+ nl +:+ "- point one" +:+ nl +:+ "- point two")
  = [ Paragraph "Title: Example" heading_style;
      Paragraph "Some bold body text." body_style;
      Paragraph (bullet +:+ " point one" +:+ nl +:+ bullet +:+ " point two")
        body_style ].
Proof. reflexivity. Qed.

(** Trimming takes every whitespace character, not only those of
    ASCII: an em space before the marker goes and the marker is
    converted; a no-break space after the marker goes with the space of
    the marker, and nothing is converted; a paragraph of such spaces is
    skipped. *)
Example unicode_whitespace_trimmed :
  render_paragraph (bytes [226; 128; 131] +:+ "- x")
  = Some (Paragraph (bullet +:+ " x") body_style)
  /\ render_paragraph ("- " +:+ bytes [194; 160])
     = Some (Paragraph "-" body_style)
  /\ render_paragraph (bytes [227; 128; 128] +:+ " " +:+ bytes [194; 133])
     = None.
Proof. repeat split; reflexivity. Qed.

(** A paragraph that is blank after trimming leaves no element. *)
Example blank_paragraph_skipped :
  paragraph_elements ("one" +:+ nl +:+ nl +:+ "  " +:+ nl +:+ nl +:+ "two")
  = [Paragraph "one" body_style; Paragraph "two" body_style].
Proof. reflexivity. Qed.

(** * The pipeline *)

Lemma stage_events_app (xs ys : list event) :
  stage_events (xs ++ ys) = stage_events xs ++ stage_events ys.
Proof. apply List.filter_app. Qed.

Lemma stage_events_network (evs : list event) :
  Forall (fun e => is_network e = true) evs -> stage_events evs = [].
Proof.
  induction 1 as [|e evs He _ IH]; [reflexivity|].
  destruct e; simpl in *; try discriminate; exact IH.
Qed.

Section PipelineFacts.
Context {W : Type} (client : Client W).

(** At the level of stages, a call of the agent shows as its call and,
    when it comes back, its return. *)
Lemma agent_stage_events (q : string) (c : option string) (w : W) :
  stage_events (create_search_agent client q c w).2 =
    AgentCall q c ::
    match (create_search_agent client q c w).1.1 with
    | Ok r => [AgentReturn r.1]
    | _ => []
    end.
Proof.
  unfold create_search_agent. rewrite create_search_agent_eq.
  pose proof (initial_run client q c w) as Hrun.
  apply loop_run_network, stage_events_network in Hrun.
  destruct (while_loop client max_iterations (initial_state q c) w)
    as [[[st|e|] w1] ev]; cbn [fst snd] in *.
  - destruct (response st) as [r|]; cbn [fst snd].
    + change (AgentCall q c :: ev ++ [AgentReturn (final_text r)])
        with ([AgentCall q c] ++ ev ++ [AgentReturn (final_text r)]).
      rewrite !stage_events_app, Hrun. reflexivity.
    + change (AgentCall q c :: ev) with ([AgentCall q c] ++ ev).
      rewrite stage_events_app, Hrun. reflexivity.
  - change (AgentCall q c :: ev) with ([AgentCall q c] ++ ev).
    rewrite stage_events_app, Hrun. reflexivity.
  - change (AgentCall q c :: ev) with ([AgentCall q c] ++ ev).
    rewrite stage_events_app, Hrun. reflexivity.
Qed.

(** A stage: the agent's final text, its history dropped. *)
Lemma stage_eq (q : string) (c : option string) (w : W) :
  (let* r := create_search_agent client q c in ret (fst r)) w =
    match create_search_agent client q c w with
    | (Ok r, w1, ev) => (Ok r.1, w1, ev)
    | (Raise e, w1, ev) => (Raise e, w1, ev)
    | (OutOfFuel, w1, ev) => (OutOfFuel, w1, ev)
    end.
Proof.
  unfold bind, ret.
  destruct (create_search_agent client q c w) as [[[r|e|] w1] ev];
    rewrite ?app_nil_r; reflexivity.
Qed.

Lemma make_paragraph_eq (text : string) (s : style) (w : W) :
  make_paragraph client text s w =
    match paragraph_error client text s with
    | Some e => (Raise e, w, [])
    | None => (Ok (Paragraph text s), w, [])
    end.
Proof.
  unfold make_paragraph. destruct (paragraph_error client text s); reflexivity.
Qed.

Lemma make_paragraphs_eq (els : list element) (w : W) :
  make_paragraphs client els w =
    match first_error client els with
    | Some e => (Raise e, w, [])
    | None => (Ok els, w, [])
    end.
Proof.
  induction els as [|[text s|] els IH]; [reflexivity| |];
    cbn [make_paragraphs first_error]; unfold bind.
  - rewrite make_paragraph_eq.
    destruct (paragraph_error client text s); [reflexivity|].
    rewrite IH. destruct (first_error client els); reflexivity.
  - rewrite IH. destruct (first_error client els); reflexivity.
Qed.

Lemma first_error_some (els : list element) (e : exn) :
  first_error client els = Some e ->
  exists text s,
    In (Paragraph text s) els /\ paragraph_error client text s = Some e.
Proof.
  induction els as [|[text s|] els IH]; [discriminate| |];
    cbn [first_error].
  - destruct (paragraph_error client text s) as [x|] eqn:Hp.
    + intros [= <-]. exists text, s. split; [left; reflexivity | exact Hp].
    + intros H. destruct (IH H) as (text' & s' & Hin & Hp').
      exists text', s'. split; [right; exact Hin | exact Hp'].
  - intros H. destruct (IH H) as (text' & s' & Hin & Hp').
    exists text', s'. split; [right; exact Hin | exact Hp'].
Qed.

(** The renderer by its input, by what the [Paragraph] calls do and by
    the answer of [doc.build]: the two calls for the header come first,
    then the split of the text, then the calls for the paragraphs. *)
Lemma generate_pdf_report_eq (text : option string) (w : W) :
  generate_pdf_report client text w =
    let today := strftime client "%B %d, %Y" w in
    match first_error client (report_header today) with
    | Some e => (Raise e, w, [RenderCall text])
    | None =>
        match text with
        | None => (Raise none_text_error, w, [RenderCall None])
        | Some t =>
            match first_error client (paragraph_elements t) with
            | Some e => (Raise e, w, [RenderCall (Some t)])
            | None =>
                let file := "techcrunch_ai_newsletter_"
                            +:+ strftime client "%Y%m%d" w +:+ ".pdf" in
                let els := report_header today ++ paragraph_elements t in
                match build client file els w with
                | (inr _, w1) =>
                    (Ok file, w1, [RenderCall (Some t); Build file els])
                | (inl e, w1) =>
                    (Raise e, w1, [RenderCall (Some t); Build file els])
                end
            end
        end
    end.
Proof.
  unfold generate_pdf_report, bind, emit, read. cbv zeta.
  unfold report_header. cbn [first_error].
  rewrite make_paragraph_eq.
  destruct (paragraph_error client "TechCrunch AI & Startup Newsletter"
              title_style); [reflexivity|].
  rewrite make_paragraph_eq.
  destruct (paragraph_error client _ heading_style); [reflexivity|].
  destruct text as [t|]; [|reflexivity].
  rewrite make_paragraphs_eq.
  destruct (first_error client (paragraph_elements t)); [reflexivity|].
  unfold call, ret.
  destruct (build client _ _ w) as [[e|[]] w1]; reflexivity.
Qed.

Lemma generate_pdf_report_stage_events (text : option string) (w : W) :
  stage_events (generate_pdf_report client text w).2 = [RenderCall text].
Proof.
  rewrite generate_pdf_report_eq. cbv zeta.
  destruct (first_error client (report_header _)); [reflexivity|].
  destruct text as [t|]; [|reflexivity].
  destruct (first_error client (paragraph_elements t)); [reflexivity|].
  destruct (build client _ _ w) as [[e|u] w1]; reflexivity.
Qed.

End PipelineFacts.

Section PipelineClaims.
Context {W : Type} (client : Client W).

(** [main] by the outcomes of its stages. *)
Lemma main_eq (w : W) :
  main client w =
    match create_search_agent client gather_query (Some gather_context) w with
    | (Ok r1, w1, ev1) =>
        match create_search_agent client rank_query r1.1 w1 with
        | (Ok r2, w2, ev2) =>
            match create_search_agent client elaborate_query r2.1 w2 with
            | (Ok r3, w3, ev3) =>
                match generate_pdf_report client r3.1 w3 with
                | (res, w4, ev4) =>
                    (res, w4, MainCall :: ev1 ++ ev2 ++ ev3 ++ ev4)
                end
            | (Raise e, w3, ev3) => (Raise e, w3, MainCall :: ev1 ++ ev2 ++ ev3)
            | (OutOfFuel, w3, ev3) =>
                (OutOfFuel, w3, MainCall :: ev1 ++ ev2 ++ ev3)
            end
        | (Raise e, w2, ev2) => (Raise e, w2, MainCall :: ev1 ++ ev2)
        | (OutOfFuel, w2, ev2) => (OutOfFuel, w2, MainCall :: ev1 ++ ev2)
        end
    | (Raise e, w1, ev1) => (Raise e, w1, MainCall :: ev1)
    | (OutOfFuel, w1, ev1) => (OutOfFuel, w1, MainCall :: ev1)
    end.
Proof.
  unfold main, gather_techcrunch_news, analyze_and_rank_news,
    create_detailed_summaries.
  unfold bind at 1. unfold emit at 1. cbn iota.
  unfold bind at 1. rewrite stage_eq.
  destruct (create_search_agent client gather_query (Some gather_context) w)
    as [[[r1|e1|] w1] ev1]; try reflexivity.
  unfold bind at 1. rewrite stage_eq.
  destruct (create_search_agent client rank_query r1.1 w1)
    as [[[r2|e2|] w2] ev2]; try reflexivity.
  unfold bind at 1. rewrite stage_eq.
  destruct (create_search_agent client elaborate_query r2.1 w2)
    as [[[r3|e3|] w3] ev3]; try reflexivity.
  destruct (generate_pdf_report client r3.1 w3) as [[res w4] ev4].
  reflexivity.
Qed.

(** C6.  At the level of stages a run of [main] is Gather, Rank,
    Elaborate and the renderer, in this order and as far as the run
    gets: the context of Rank is the text Gather returned, the context
    of Elaborate is the text Rank returned, and the renderer is called
    once, with the text Elaborate returned. *)
Theorem main_stage_order (w : W) :
  exists out1 out2 out3,
    stage_events (main client w).2 `prefix_of` pipeline_trace out1 out2 out3
    /\ (forall file, (main client w).1.1 = Ok file ->
          stage_events (main client w).2 = pipeline_trace out1 out2 out3).
Proof.
  rewrite main_eq.
  pose proof (agent_stage_events client gather_query (Some gather_context) w)
    as E1.
  destruct (create_search_agent client gather_query (Some gather_context) w)
    as [[[r1|e1|] w1] ev1]; cbn [fst snd] in E1;
    [| exists None, None, None; cbn [fst snd];
       (split; [|discriminate]);
       change (MainCall :: ev1) with ([MainCall] ++ ev1);
       rewrite stage_events_app, E1; eexists; reflexivity ..].
  pose proof (agent_stage_events client rank_query r1.1 w1) as E2.
  destruct (create_search_agent client rank_query r1.1 w1)
    as [[[r2|e2|] w2] ev2]; cbn [fst snd] in E2;
    [| exists r1.1, None, None; cbn [fst snd];
       (split; [|discriminate]);
       change (MainCall :: ev1 ++ ev2) with ([MainCall] ++ ev1 ++ ev2);
       rewrite !stage_events_app, E1, E2; eexists; reflexivity ..].
  pose proof (agent_stage_events client elaborate_query r2.1 w2) as E3.
  destruct (create_search_agent client elaborate_query r2.1 w2)
    as [[[r3|e3|] w3] ev3]; cbn [fst snd] in E3;
    [| exists r1.1, r2.1, None; cbn [fst snd];
       (split; [|discriminate]);
       change (MainCall :: ev1 ++ ev2 ++ ev3)
         with ([MainCall] ++ ev1 ++ ev2 ++ ev3);
       rewrite !stage_events_app, E1, E2, E3; eexists; reflexivity ..].
  pose proof (generate_pdf_report_stage_events client r3.1 w3) as E4.
  destruct (generate_pdf_report client r3.1 w3) as [[res w4] ev4].
  cbn [fst snd] in *. exists r1.1, r2.1, r3.1.
  change (MainCall :: ev1 ++ ev2 ++ ev3 ++ ev4)
    with ([MainCall] ++ ev1 ++ ev2 ++ ev3 ++ ev4).
  rewrite !stage_events_app, E1, E2, E3, E4.
  split; [exists []; reflexivity | reflexivity].
Qed.

(** C9, as amended.  When the credential is set neither in the process
    environment nor in the .env file, the script raises ValueError with
    nothing done: no call of [main], no call of the chat service or of
    a tool, and the world is as it was. *)
Theorem missing_credential_is_fatal
    (dotenv environ : gmap string string) (w : W) :
  environ !! "OLLAMA_API_KEY" = None ->
  dotenv !! "OLLAMA_API_KEY" = None ->
  script client dotenv environ w
  = (Raise (Exn "ValueError"
              "OLLAMA_API_KEY environment variable is required"), w, []).
Proof.
  intros Henv Hfile. unfold script, load_dotenv.
  rewrite lookup_union, Henv, Hfile. reflexivity.
Qed.

End PipelineClaims.

Lemma main_stage_order_witness :
  exists out1 out2 out3,
    stage_events (main (constant_client plain_answer tool_ok) tt).2
    = pipeline_trace out1 out2 out3.
Proof.
  destruct (main_stage_order (constant_client plain_answer tool_ok) tt)
    as (out1 & out2 & out3 & _ & H).
  exists out1, out2, out3.
  apply (H "techcrunch_ai_newsletter_today.pdf"). vm_compute. reflexivity.
Defined.

Lemma missing_credential_is_fatal_witness :
  script (constant_client plain_answer tool_ok) ∅ ∅ tt
  = (Raise (Exn "ValueError"
              "OLLAMA_API_KEY environment variable is required"), tt, []).
Proof.
  apply (missing_credential_is_fatal (constant_client plain_answer tool_ok));
    reflexivity.
Defined.

(** C9 as stated fails when the .env file holds the credential: with an
    empty process environment the script goes on, calls [main] and makes
    its three rounds of chat-service calls. *)
Lemma dotenv_supplies_credential :
  (∅ : gmap string string) !! "OLLAMA_API_KEY" = None
  /\ (script (constant_client plain_answer tool_ok)
        {[ "OLLAMA_API_KEY" := "secret" ]} ∅ tt).1.1
     = Ok "techcrunch_ai_newsletter_today.pdf"
  /\ In MainCall
       (script (constant_client plain_answer tool_ok)
          {[ "OLLAMA_API_KEY" := "secret" ]} ∅ tt).2
  /\ rounds
       (script (constant_client plain_answer tool_ok)
          {[ "OLLAMA_API_KEY" := "secret" ]} ∅ tt).2 = 3.
Proof.
  split; [reflexivity|]. vm_compute. repeat split. left. reflexivity.
Qed.

(** * Further properties of the tool-call loop *)

Lemma chats_app (xs ys : list event) : chats (xs ++ ys) = chats xs ++ chats ys.
Proof. apply omap_app. Qed.

Lemma chats_tool_events (evs : list event) :
  Forall (fun e => is_tool_event e = true) evs -> chats evs = [].
Proof.
  induction 1 as [|e evs He _ IH]; [reflexivity|].
  destruct e; simpl in *; try discriminate; exact IH.
Qed.

Lemma tool_events_no_chat (evs : list event) (msgs : list message) :
  Forall (fun e => is_tool_event e = true) evs -> ~ In (Chat msgs) evs.
Proof.
  intros H Hin. rewrite Forall_forall in H.
  apply list_elem_of_In, H in Hin. discriminate.
Qed.

Section LoopShape.
Context {W : Type} (client : Client W).

(** Every conversation a run of the loop sends is the conversation it
    started from and then whole rounds. *)
Lemma loop_run_transcript st w res w' evs :
  loop_run client st w res w' evs ->
  forall msgs, In (Chat msgs) evs ->
  exists new, msgs = messages st ++ new /\ transcript client new.
Proof.
  induction 1 as [st w Hcap | st w e w1 Hlt Hchat | st w r w1 Hlt Hchat Hreq
                 | st w r w1 added w2 ev res w3 ev2 Hlt Hchat Hreq Hev Hadd Hrun IH];
    intros msgs Hin.
  - destruct Hin.
  - destruct Hin as [[= <-]|[]]. exists []. rewrite app_nil_r.
    split; [reflexivity | constructor].
  - destruct Hin as [[= <-]|[]]. exists []. rewrite app_nil_r.
    split; [reflexivity | constructor].
  - destruct Hin as [[= <-]|Hin].
    + exists []. rewrite app_nil_r. split; [reflexivity | constructor].
    + apply in_app_or in Hin as [Hin|Hin];
        [destruct (tool_events_no_chat ev msgs Hev Hin)|].
      destruct (IH msgs Hin) as (new & -> & Hnew). cbn [messages].
      exists (Reply r :: added ++ new). rewrite <- app_assoc.
      split; [reflexivity|]. constructor; assumption.
Qed.

Lemma create_search_agent_chats (q : string) (c : option string) (w : W)
    (msgs : list message) :
  In (Chat msgs) (create_search_agent client q c w).2 ->
  In (Chat msgs) (while_loop client max_iterations (initial_state q c) w).2.
Proof.
  unfold create_search_agent. rewrite create_search_agent_eq.
  destruct (while_loop client max_iterations (initial_state q c) w)
    as [[[st|e|] w1] ev]; cbn [fst snd].
  - destruct (response st) as [r|]; cbn [snd].
    + intros [[=]|Hin]. apply in_app_or in Hin as [Hin|[[=]|[]]]. exact Hin.
    + intros [[=]|Hin]. exact Hin.
  - intros [[=]|Hin]. exact Hin.
  - intros [[=]|Hin]. exact Hin.
Qed.

(** X1.  Every conversation [create_search_agent] sends to the chat
    service starts with the system prompt and the user message, and goes
    on with whole rounds: a reply and then one tool message for each tool
    call the reply asks for, in the order of the calls. *)
Theorem sent_conversation_shape (q : string) (c : option string) (w : W)
    (msgs : list message) :
  In (Chat msgs) (create_search_agent client q c w).2 ->
  exists new,
    msgs = initial_messages q c ++ new /\ transcript client new.
Proof.
  intros Hin. apply create_search_agent_chats in Hin.
  exact (loop_run_transcript _ _ _ _ _ (initial_run client q c w) msgs Hin).
Qed.

End LoopShape.

Lemma in_chats (evs : list event) (msgs : list message) :
  In msgs (chats evs) -> In (Chat msgs) evs.
Proof.
  induction evs as [|e evs IH]; [intros []|].
  destruct e; cbn [chats omap]; try (intros H; right; apply IH; exact H).
  intros [<-|H]; [left; reflexivity | right; apply IH; exact H].
Qed.

Section LoopGrowth.
Context {W : Type} (client : Client W).

Lemma loop_run_grows st w res w' evs :
  loop_run client st w res w' evs ->
  forall i j m1 m2, i < j ->
    chats evs !! i = Some m1 -> chats evs !! j = Some m2 ->
    m1 `prefix_of` m2 /\ length m1 < length m2.
Proof.
  induction 1 as [st w Hcap | st w e w1 Hlt Hchat | st w r w1 Hlt Hchat Hreq
                 | st w r w1 added w2 ev res w3 ev2 Hlt Hchat Hreq Hev Hadd Hrun IH];
    intros i j m1 m2 Hij H1 H2.
  - discriminate.
  - destruct j as [|j]; [lia | discriminate].
  - destruct j as [|j]; [lia | discriminate].
  - change (Chat (messages st) :: ev ++ ev2)
      with ([Chat (messages st)] ++ ev ++ ev2) in H1, H2.
    rewrite !chats_app, (chats_tool_events ev Hev) in H1, H2.
    cbn [chats omap app] in H1, H2.
    destruct j as [|j]; [lia|]. cbn in H2.
    destruct i as [|i]; cbn in H1.
    + injection H1 as <-.
      apply list_elem_of_lookup_2, list_elem_of_In, in_chats in H2.
      destruct (loop_run_transcript client _ _ _ _ _ Hrun m2 H2)
        as (new & -> & _).
      cbn [messages]. rewrite <- app_assoc. split.
      * eexists. reflexivity.
      * rewrite length_app. simpl. lia.
    + apply (IH i j); [lia | assumption | assumption].
Qed.

(** X2.  The conversation only grows: of two conversations that
    [create_search_agent] sends to the chat service, the later one is the
    earlier one with messages added at the end. *)
Theorem conversation_only_grows (q : string) (c : option string) (w : W)
    (i j : nat) (m1 m2 : list message) :
  i < j ->
  chats (create_search_agent client q c w).2 !! i = Some m1 ->
  chats (create_search_agent client q c w).2 !! j = Some m2 ->
  m1 `prefix_of` m2 /\ length m1 < length m2.
Proof.
  assert (Hchats : chats (create_search_agent client q c w).2
    = chats (while_loop client max_iterations (initial_state q c) w).2).
  { unfold create_search_agent. rewrite create_search_agent_eq.
    destruct (while_loop client max_iterations (initial_state q c) w)
      as [[[st|e|] w1] ev]; cbn [fst snd]; try reflexivity.
    destruct (response st) as [r|]; cbn [snd]; [|reflexivity].
    change (AgentCall q c :: ev ++ [AgentReturn (final_text r)])
      with ([AgentCall q c] ++ ev ++ [AgentReturn (final_text r)]).
    rewrite !chats_app. cbn [chats omap]. rewrite app_nil_r. reflexivity. }
  rewrite Hchats.
  exact (loop_run_grows _ _ _ _ _ (initial_run client q c w) i j m1 m2).
Qed.

Lemma answers_content (tc : tool_call) (m : message) :
  answers client tc m ->
  exists c, m = Dict tool c
            /\ (char_length c <= result_cap
                \/ exists text, c = "Error: " +:+ text).
Proof.
  intros [w0 ->]. eexists. split; [reflexivity|].
  destruct (invoke_tool_events client tc w0) as [_ Hfuel].
  destruct (invoke_tool client tc w0) as [[[s|e|] w1] ev] eqn:Hinv;
    cbn [fst tool_reply] in *.
  - left. apply (invoke_tool_truncates client tc w0 w1 s ev Hinv).
  - right. eexists. reflexivity.
  - congruence.
Qed.

Lemma answers_in (tcs : list tool_call) (added : list message) (m : message) :
  Forall2 (answers client) tcs added -> In m added ->
  exists tc, In tc tcs /\ answers client tc m.
Proof.
  induction 1 as [|tc m' tcs added Hm _ IH]; [intros []|].
  intros [<-|Hin].
  - exists tc. split; [left; reflexivity | exact Hm].
  - destruct (IH Hin) as (tc' & Hin' & Ha). exists tc'.
    split; [right; exact Hin' | exact Ha].
Qed.

Lemma transcript_tool_message (new : list message) (c : string) :
  transcript client new -> In (Dict tool c) new ->
  char_length c <= result_cap \/ exists text, c = "Error: " +:+ text.
Proof.
  induction 1 as [|r added rest Hadd _ IH]; [intros []|].
  intros [[=]|Hin]. apply in_app_or in Hin as [Hin|Hin]; [|exact (IH Hin)].
  destruct (answers_in _ _ _ Hadd Hin) as (tc & _ & Ha).
  destruct (answers_content tc _ Ha) as (c' & [= <-] & Hc). exact Hc.
Qed.

(** X3.  In every conversation [create_search_agent] sends to the chat
    service, a tool message is at most 8000 characters long or is an
    error report that starts with Error: and a space. *)
Theorem tool_message_cut_or_error (q : string) (c : option string) (w : W)
    (msgs : list message) (text : string) :
  In (Chat msgs) (create_search_agent client q c w).2 ->
  In (Dict tool text) msgs ->
  char_length text <= 8000 \/ exists err, text = "Error: " +:+ err.
Proof.
  intros Hin Htool. apply create_search_agent_chats in Hin.
  destruct (loop_run_transcript client _ _ _ _ _ (initial_run client q c w)
              msgs Hin) as (new & -> & Hnew).
  apply in_app_or in Htool as [Htool|Htool].
  - destruct Htool as [[=]|[[=]|[]]].
  - exact (transcript_tool_message new text Hnew Htool).
Qed.

Lemma dispatch_tool_trace (tc : tool_call) (w : W) :
  (dispatch_tool client tc w).2
  = match tool_event_of tc with Some e => [e] | None => [] end.
Proof.
  unfold dispatch_tool, tool_event_of, call, raise, ret.
  destruct (String.eqb (tc_name tc) "web_search").
  - destruct (tc_arguments tc !! "query") as [q|]; [|reflexivity].
    destruct (web_search client q w) as [[e|a] w1]; reflexivity.
  - destruct (String.eqb (tc_name tc) "web_fetch"); [|reflexivity].
    destruct (tc_arguments tc !! "url") as [u|]; [|reflexivity].
    destruct (web_fetch client u w) as [[e|a] w1]; reflexivity.
Qed.

Lemma run_tool_call_trace (tc : tool_call) (msgs : list message) (w : W) :
  (run_tool_call client tc msgs w).2
  = match tool_event_of tc with Some e => [e] | None => [] end.
Proof.
  rewrite run_tool_call_eq, invoke_tool_eq, <- (dispatch_tool_trace tc w).
  destruct (dispatch_tool client tc w) as [[[s|e|] w1] ev]; reflexivity.
Qed.

Lemma for_tool_calls_trace (tcs : list tool_call) (msgs : list message) (w : W) :
  (for_tool_calls client tcs msgs w).2 = omap tool_event_of tcs.
Proof.
  revert msgs w. induction tcs as [|tc tcs IH]; intros msgs w; [reflexivity|].
  change (omap tool_event_of (tc :: tcs))
    with (match tool_event_of tc with
          | Some e => e :: omap tool_event_of tcs
          | None => omap tool_event_of tcs
          end).
  cbn [for_tool_calls]. unfold bind.
  pose proof (run_tool_call_trace tc msgs w) as Htc.
  destruct (run_tool_call_ok client tc msgs w) as (m & w1 & ev & Hrun & _).
  rewrite Hrun in Htc |- *. cbn [snd] in Htc. subst ev.
  specialize (IH (msgs ++ [m]) w1).
  destruct (for_tool_calls client tcs (msgs ++ [m]) w1) as [[res w2] ev2].
  cbn [snd] in *. subst ev2.
  destruct (tool_event_of tc); reflexivity.
Qed.

(** X4.  In a round whose reply came, the tools are reached one after
    the other in the order the reply asks for them, whatever each of them
    answers or raises; a call with an unknown name or without its
    argument reaches no tool. *)
Theorem tools_called_in_order (st : loop_state) (w w1 : W) (r : reply) :
  chat client (messages st) w = (inr r, w1) ->
  (round client st w).2
  = Chat (messages st) :: omap tool_event_of (requested r).
Proof.
  intros Hchat. unfold round, bind, call. rewrite Hchat.
  destruct (requested r) as [|tc tcs] eqn:Hreq; [reflexivity|].
  pose proof (for_tool_calls_trace (tc :: tcs) (messages (record_reply st r)) w1)
    as Htr.
  destruct (for_tool_calls_ok client (tc :: tcs) (messages (record_reply st r)) w1)
    as (added & w2 & ev & Hfor & _).
  rewrite Hfor in Htr |- *. cbn [snd] in Htr. subst ev.
  unfold ret. cbn [snd]. rewrite app_nil_r. reflexivity.
Qed.

(** X5.  A call of one of the two tools that lacks the argument the tool
    reads does not reach the tool: the world is untouched, and the tool
    message reports the key, quoted, after Error: and a space. *)
Theorem missing_argument_reported (tc : tool_call) (name key : string)
    (msgs : list message) (w : W) :
  In (name, key) tool_arguments ->
  tc_name tc = name ->
  tc_arguments tc !! key = None ->
  run_tool_call client tc msgs w
  = (Ok (msgs ++ [Dict tool ("Error: '" +:+ key +:+ "'")]), w, []).
Proof.
  intros Hin Hname Hkey. rewrite run_tool_call_eq, invoke_tool_eq.
  unfold dispatch_tool.
  destruct Hin as [[= <- <-]|[[= <- <-]|[]]]; rewrite Hname.
  - rewrite String.eqb_refl, Hkey. reflexivity.
  - change (String.eqb "web_fetch" "web_search") with false.
    rewrite String.eqb_refl, Hkey. reflexivity.
Qed.

Lemma loop_run_history_bound st w res w' evs :
  loop_run client st w res w' evs ->
  forall st', res = Ok st' ->
    length (conversation_history st')
    <= length (conversation_history st) + rounds evs
    /\ (Forall (fun t => t <> "") (conversation_history st) ->
        Forall (fun t => t <> "") (conversation_history st')).
Proof.
  assert (Hrec : forall s0 r,
    length (conversation_history (record_reply s0 r))
    <= length (conversation_history s0) + 1
    /\ (Forall (fun t => t <> "") (conversation_history s0) ->
        Forall (fun t => t <> "") (conversation_history (record_reply s0 r)))).
  { clear. intros st r. cbn [record_reply conversation_history]. unfold text_of.
    destruct (content r) as [| |[|a s]]; try (split; [lia | auto]).
    rewrite length_app. cbn [length]. split; [lia|].
    intros H. apply Forall_app. split; [exact H|].
    repeat constructor. discriminate. }
  induction 1 as [st w Hcap | st w e w1 Hlt Hchat | st w r w1 Hlt Hchat Hreq
                 | st w r w1 added w2 ev res w3 ev2 Hlt Hchat Hreq Hev Hadd Hrun IH];
    intros st' Hst; try discriminate.
  - injection Hst as <-. split; [lia | auto].
  - injection Hst as <-. exact (Hrec st r).
  - destruct (IH st' Hst) as [Hlen Hne]. cbn [conversation_history] in Hlen, Hne.
    destruct (Hrec st r) as [Hlen1 Hne1].
    change (Chat (messages st) :: ev ++ ev2)
      with ([Chat (messages st)] ++ ev ++ ev2).
    rewrite !rounds_app, (rounds_tool_events ev Hev).
    unfold rounds at 1. cbn [List.filter is_chat length].
    split; [lia | auto].
Qed.

Lemma loop_run_first_round st w res w' evs :
  loop_run client st w res w' evs ->
  iteration st < max_iterations -> 1 <= rounds evs.
Proof.
  destruct 1; intros Hlt; try lia; unfold rounds; cbn [List.filter is_chat length];
    lia.
Qed.

(** X6.  When [create_search_agent] returns, it has made between 1 and 5
    rounds, the history holds at most one text for each round, and no
    text of the history is empty. *)
Theorem history_bounded (q : string) (c : option string) (w : W)
    (final : option string) (hist : list string) :
  (create_search_agent client q c w).1.1 = Ok (final, hist) ->
  length hist <= rounds (create_search_agent client q c w).2
  /\ 1 <= rounds (create_search_agent client q c w).2
  /\ rounds (create_search_agent client q c w).2 <= 5
  /\ Forall (fun t => t <> "") hist.
Proof.
  unfold create_search_agent. rewrite create_search_agent_eq.
  pose proof (initial_run client q c w) as Hrun.
  pose proof (loop_run_rounds client _ _ _ _ _ Hrun) as Hle.
  pose proof (loop_run_first_round _ _ _ _ _ Hrun) as Hge.
  pose proof (loop_run_history_bound _ _ _ _ _ Hrun) as Hhist.
  destruct (while_loop client max_iterations (initial_state q c) w)
    as [[[st|e|] w1] ev]; cbn [fst snd] in *; try discriminate.
  destruct (response st) as [r|]; cbn [fst snd]; [|discriminate].
  intros [= _ <-]. rewrite rounds_agent_call, rounds_agent_return.
  destruct (Hhist st eq_refl) as [Hlen Hne].
  cbn [initial_state conversation_history iteration length] in *.
  unfold max_iterations in *.
  repeat split; [lia | apply Hge; lia | lia | apply Hne; constructor].
Qed.

End LoopGrowth.

(** ** The loop against the test doubles *)

Lemma sent_conversation_shape_witness :
  exists new,
    initial_messages gather_query None
      ++ [Reply asks_search; Dict tool "results for ai startups"]
    = initial_messages gather_query None ++ new
    /\ transcript (constant_client asks_search tool_ok) new.
Proof.
  apply (sent_conversation_shape (constant_client asks_search tool_ok)
           gather_query None tt).
  vm_compute. do 3 right. left. reflexivity.
Defined.

Lemma conversation_only_grows_witness :
  initial_messages gather_query None
    `prefix_of` initial_messages gather_query None
                  ++ [Reply asks_search; Dict tool "results for ai startups"]
  /\ length (initial_messages gather_query None)
     < length (initial_messages gather_query None
                 ++ [Reply asks_search; Dict tool "results for ai startups"]).
Proof.
  apply (conversation_only_grows (constant_client asks_search tool_ok)
           gather_query None tt 0 1); [lia | reflexivity | reflexivity].
Defined.

Lemma tool_message_cut_or_error_witness :
  char_length "Error: connection refused" <= 8000
  \/ exists err, "Error: connection refused" = "Error: " +:+ err.
Proof.
  apply (tool_message_cut_or_error (constant_client asks_search tool_down)
           gather_query None tt
           (initial_messages gather_query None
              ++ [Reply asks_search; Dict tool "Error: connection refused"])).
  - vm_compute. do 3 right. left. reflexivity.
  - do 3 right. left. reflexivity.
Defined.

Lemma tools_called_in_order_witness :
  (round (constant_client asks_search tool_down)
     (initial_state gather_query None) tt).2
  = [Chat (initial_messages gather_query None); WebSearch "ai startups"].
Proof.
  apply (tools_called_in_order (constant_client asks_search tool_down)
           (initial_state gather_query None) tt tt asks_search).
  reflexivity.
Defined.

Lemma missing_argument_reported_witness :
  run_tool_call (constant_client asks_search tool_ok)
    (ToolCall "web_fetch" {[ "query" := "ai startups" ]}) [] tt
  = (Ok [Dict tool "Error: 'url'"], tt, []).
Proof.
  apply (missing_argument_reported (constant_client asks_search tool_ok)
           (ToolCall "web_fetch" {[ "query" := "ai startups" ]})
           "web_fetch" "url" [] tt).
  - right. left. reflexivity.
  - reflexivity.
  - reflexivity.
Defined.

Lemma history_bounded_witness :
  length ["All done."]
  <= rounds (create_search_agent (constant_client plain_answer tool_ok)
               gather_query None tt).2
  /\ 1 <= rounds (create_search_agent (constant_client plain_answer tool_ok)
                    gather_query None tt).2
  /\ rounds (create_search_agent (constant_client plain_answer tool_ok)
               gather_query None tt).2 <= 5
  /\ Forall (fun t => t <> "") ["All done."].
Proof.
  apply (history_bounded (constant_client plain_answer tool_ok)
           gather_query None tt (Some "All done.")).
  reflexivity.
Defined.

(** * Further properties of the pipeline *)

Section PipelineMore.
Context {W : Type} (client : Client W).

Lemma agent_rounds_le (q : string) (c : option string) (w : W) :
  rounds (create_search_agent client q c w).2 <= 5.
Proof.
  unfold create_search_agent. rewrite create_search_agent_eq.
  pose proof (loop_run_rounds client _ _ _ _ _ (initial_run client q c w)) as Hle.
  destruct (while_loop client max_iterations (initial_state q c) w)
    as [[[st|e|] w1] ev]; cbn [fst snd] in *;
    [destruct (response st); cbn [snd]|..];
    rewrite ?rounds_agent_call, ?rounds_agent_return;
    unfold max_iterations in Hle; cbn [initial_state iteration] in Hle; lia.
Qed.

Lemma agent_outcome (q : string) (c : option string) (w : W) :
  match (create_search_agent client q c w).1.1 with
  | Ok _ => True
  | Raise e =>
      exists msgs w0,
        chat client msgs w0 = (inl e, (create_search_agent client q c w).1.2)
  | OutOfFuel => False
  end.
Proof.
  unfold create_search_agent. rewrite create_search_agent_eq.
  pose proof (initial_run client q c w) as Hrun.
  pose proof (initial_run_response client q c w) as Hresp.
  destruct (while_loop client max_iterations (initial_state q c) w)
    as [[[st|e|] w1] ev]; cbn [fst snd] in *.
  - destruct (Hresp st w1 ev eq_refl) as (r & -> & _). exact I.
  - exact (loop_run_raise client _ _ _ _ _ Hrun e eq_refl).
  - exact (loop_run_terminates client _ _ _ _ _ Hrun eq_refl).
Qed.

Lemma rounds_cons_main (evs : list event) : rounds (MainCall :: evs) = rounds evs.
Proof. reflexivity. Qed.

Lemma generate_pdf_report_rounds (text : option string) (w : W) :
  rounds (generate_pdf_report client text w).2 = 0
  /\ (generate_pdf_report client text w).1.1 <> OutOfFuel.
Proof.
  rewrite generate_pdf_report_eq. cbv zeta.
  destruct (first_error client (report_header _));
    [split; [reflexivity | discriminate]|].
  destruct text as [t|]; [|split; [reflexivity | discriminate]].
  destruct (first_error client (paragraph_elements t));
    [split; [reflexivity | discriminate]|].
  destruct (build client _ _ w) as [[e|u] w1];
    split; (reflexivity || discriminate).
Qed.

Lemma generate_pdf_report_raise (text : option string) (w : W) (e : exn) :
  (generate_pdf_report client text w).1.1 = Raise e ->
  (exists txt sty, paragraph_error client txt sty = Some e)
  \/ (exists file els,
        build client file els w
        = (inl e, (generate_pdf_report client text w).1.2))
  \/ (e = none_text_error
      /\ (generate_pdf_report client text w).2 = [RenderCall None]).
Proof.
  rewrite generate_pdf_report_eq. cbv zeta.
  destruct (first_error client (report_header _)) as [x|] eqn:Hh.
  { intros [= <-]. left.
    destruct (first_error_some client _ _ Hh) as (txt & sty & _ & Hp). eauto. }
  destruct text as [t|].
  - destruct (first_error client (paragraph_elements t)) as [x|] eqn:Hb.
    { intros [= <-]. left.
      destruct (first_error_some client _ _ Hb) as (txt & sty & _ & Hp).
      eauto. }
    destruct (build client _ _ w) as [[x|u] w1] eqn:Hbuild; cbn [fst snd];
      [|discriminate].
    intros [= <-]. right; left. eauto.
  - cbn [fst snd]. intros [= <-]. right; right. split; reflexivity.
Qed.

Lemma generate_pdf_report_ok (text : option string) (w : W) (file : string) :
  (generate_pdf_report client text w).1.1 = Ok file ->
  exists t,
    text = Some t
    /\ file = "techcrunch_ai_newsletter_"
              +:+ strftime client "%Y%m%d" w +:+ ".pdf"
    /\ (generate_pdf_report client text w).2
       = [RenderCall (Some t);
          Build file (report_header (strftime client "%B %d, %Y" w)
                      ++ paragraph_elements t)].
Proof.
  rewrite generate_pdf_report_eq. cbv zeta.
  destruct (first_error client (report_header _)); [discriminate|].
  destruct text as [t|]; [|discriminate].
  destruct (first_error client (paragraph_elements t)); [discriminate|].
  destruct (build client _ _ w) as [[x|u] w1]; cbn [fst snd];
    [discriminate|].
  intros [= <-]. exists t. repeat split.
Qed.

(** X7.  A run of [main] comes back, and it has called the chat service
    at most 15 times. *)
Theorem main_rounds_bounded (w : W) :
  rounds (main client w).2 <= 15 /\ (main client w).1.1 <> OutOfFuel.
Proof.
  rewrite main_eq.
  pose proof (agent_rounds_le gather_query (Some gather_context) w) as R1.
  pose proof (agent_outcome gather_query (Some gather_context) w) as O1.
  destruct (create_search_agent client gather_query (Some gather_context) w)
    as [[[r1|e1|] w1] ev1]; cbn [fst snd] in *;
    [| rewrite rounds_cons_main; split; [lia | discriminate] | destruct O1].
  pose proof (agent_rounds_le rank_query r1.1 w1) as R2.
  pose proof (agent_outcome rank_query r1.1 w1) as O2.
  destruct (create_search_agent client rank_query r1.1 w1)
    as [[[r2|e2|] w2] ev2]; cbn [fst snd] in *;
    [| rewrite rounds_cons_main, rounds_app; split; [lia | discriminate]
     | destruct O2].
  pose proof (agent_rounds_le elaborate_query r2.1 w2) as R3.
  pose proof (agent_outcome elaborate_query r2.1 w2) as O3.
  destruct (create_search_agent client elaborate_query r2.1 w2)
    as [[[r3|e3|] w3] ev3]; cbn [fst snd] in *;
    [| rewrite rounds_cons_main, !rounds_app; split; [lia | discriminate]
     | destruct O3].
  destruct (generate_pdf_report_rounds r3.1 w3) as [R4 O4].
  destruct (generate_pdf_report client r3.1 w3) as [[res w4] ev4].
  cbn [fst snd] in *. rewrite rounds_cons_main, !rounds_app.
  split; [lia | exact O4].
Qed.

(** X8.  An exception that leaves [main] was raised by the chat service,
    by a [Paragraph] call of the renderer or by [doc.build], or it is the
    AttributeError of the renderer given [None] for its text, after which
    nothing more is done; it is never a tool's. *)
Theorem main_failure_origin (w : W) (e : exn) :
  (main client w).1.1 = Raise e ->
  (exists msgs w0, chat client msgs w0 = (inl e, (main client w).1.2))
  \/ (exists text sty, paragraph_error client text sty = Some e)
  \/ (exists file els w0,
        build client file els w0 = (inl e, (main client w).1.2))
  \/ (e = none_text_error
      /\ last (main client w).2 = Some (RenderCall None)).
Proof.
  rewrite main_eq.
  pose proof (agent_outcome gather_query (Some gather_context) w) as O1.
  destruct (create_search_agent client gather_query (Some gather_context) w)
    as [[[r1|e1|] w1] ev1]; cbn [fst snd] in *;
    [| intros [= <-]; left; exact O1 | destruct O1].
  pose proof (agent_outcome rank_query r1.1 w1) as O2.
  destruct (create_search_agent client rank_query r1.1 w1)
    as [[[r2|e2|] w2] ev2]; cbn [fst snd] in *;
    [| intros [= <-]; left; exact O2 | destruct O2].
  pose proof (agent_outcome elaborate_query r2.1 w2) as O3.
  destruct (create_search_agent client elaborate_query r2.1 w2)
    as [[[r3|e3|] w3] ev3]; cbn [fst snd] in *;
    [| intros [= <-]; left; exact O3 | destruct O3].
  pose proof (generate_pdf_report_raise r3.1 w3 e) as O4.
  destruct (generate_pdf_report client r3.1 w3) as [[res w4] ev4].
  cbn [fst snd] in *. intros Hres.
  destruct (O4 Hres) as [Hp|[(file & els & Hb)|[-> ->]]].
  - right; left. exact Hp.
  - right; right; left. eauto.
  - right; right; right. split; [reflexivity|].
    rewrite app_comm_cons, !app_assoc. apply last_snoc.
Qed.

(** X9.  When [main] returns a file name, the last thing it did was to
    hand the backend a document under that name: the name is the fixed
    prefix, the date stamp and the extension, and the document is the
    three header elements followed by the elements of the text the
    renderer was called with, which is not [None]. *)
Theorem main_success_built (w : W) (file : string) :
  (main client w).1.1 = Ok file ->
  exists t w3,
    last (stage_events (main client w).2) = Some (RenderCall (Some t))
    /\ file = "techcrunch_ai_newsletter_"
              +:+ strftime client "%Y%m%d" w3 +:+ ".pdf"
    /\ last (main client w).2
       = Some (Build file
                 (report_header (strftime client "%B %d, %Y" w3)
                  ++ paragraph_elements t)).
Proof.
  rewrite main_eq.
  destruct (create_search_agent client gather_query (Some gather_context) w)
    as [[[r1|e1|] w1] ev1]; cbn [fst snd]; try discriminate.
  destruct (create_search_agent client rank_query r1.1 w1)
    as [[[r2|e2|] w2] ev2]; cbn [fst snd]; try discriminate.
  destruct (create_search_agent client elaborate_query r2.1 w2)
    as [[[r3|e3|] w3] ev3]; cbn [fst snd]; try discriminate.
  pose proof (generate_pdf_report_ok r3.1 w3 file) as O4.
  destruct (generate_pdf_report client r3.1 w3) as [[res w4] ev4].
  cbn [fst snd] in *. intros Hres.
  destruct (O4 Hres) as (t & _ & Hfile & ->). exists t, w3. repeat split.
  - rewrite app_comm_cons, !app_assoc, stage_events_app.
    match goal with
    | |- context [stage_events [RenderCall (Some t); Build ?f ?els]] =>
        change (stage_events [RenderCall (Some t); Build f els])
          with [RenderCall (Some t)]
    end.
    apply last_snoc.
  - exact Hfile.
  - rewrite app_comm_cons, !app_assoc.
    change [RenderCall (Some t); Build ?f ?els]
      with ([RenderCall (Some t)] ++ [Build f els]).
    rewrite app_assoc. apply last_snoc.
Qed.

Lemma main_events_head (w : W) :
  exists evs, (main client w).2 = MainCall :: evs.
Proof.
  rewrite main_eq.
  destruct (create_search_agent client gather_query (Some gather_context) w)
    as [[[r1|e1|] w1] ev1]; [|eexists; reflexivity ..].
  destruct (create_search_agent client rank_query r1.1 w1)
    as [[[r2|e2|] w2] ev2]; [|eexists; reflexivity ..].
  destruct (create_search_agent client elaborate_query r2.1 w2)
    as [[[r3|e3|] w3] ev3]; [|eexists; reflexivity ..].
  destruct (generate_pdf_report client r3.1 w3) as [[res w4] ev4].
  eexists; reflexivity.
Qed.

(** X10.  The script stops with the ValueError, and with nothing done,
    exactly when the credential is missing or empty, where a value of
    the process environment, empty or not, goes before the value of the
    .env file; with any other credential the script is a run of [main]. *)
Theorem script_fails_fast_iff (dotenv environ : gmap string string) (w : W) :
  (script client dotenv environ w = (Raise credential_error, w, [])
   <-> effective_credential dotenv environ = None
       \/ effective_credential dotenv environ = Some "")
  /\ (forall a s, effective_credential dotenv environ = Some (String a s) ->
        script client dotenv environ w = main client w).
Proof.
  assert (Heff : load_dotenv dotenv environ !! "OLLAMA_API_KEY"
                 = effective_credential dotenv environ).
  { unfold load_dotenv, effective_credential. rewrite lookup_union.
    destruct (environ !! "OLLAMA_API_KEY"), (dotenv !! "OLLAMA_API_KEY");
      reflexivity. }
  unfold script. rewrite Heff.
  destruct (effective_credential dotenv environ) as [[|a s]|].
  - split; [split; auto | discriminate].
  - split; [|reflexivity]. split.
    + intros H. destruct (main_events_head w) as [evs Hevs].
      rewrite H in Hevs. discriminate.
    + intros [H|H]; discriminate.
  - split; [split; auto | discriminate].
Qed.

End PipelineMore.

(** ** The pipeline against the test doubles *)

Lemma main_failure_origin_witness :
  (exists msgs w0,
      chat (constant_client silent_answer tool_ok) msgs w0
      = (inl none_text_error, (main (constant_client silent_answer tool_ok) tt).1.2))
  \/ (exists text sty,
        paragraph_error (constant_client silent_answer tool_ok) text sty
        = Some none_text_error)
  \/ (exists file els w0,
        build (constant_client silent_answer tool_ok) file els w0
        = (inl none_text_error,
           (main (constant_client silent_answer tool_ok) tt).1.2))
  \/ (none_text_error = none_text_error
      /\ last (main (constant_client silent_answer tool_ok) tt).2
         = Some (RenderCall None)).
Proof.
  apply (main_failure_origin (constant_client silent_answer tool_ok) tt).
  vm_compute. reflexivity.
Defined.

Lemma main_success_built_witness :
  exists t w3,
    last (stage_events (main (constant_client plain_answer tool_ok) tt).2)
    = Some (RenderCall (Some t))
    /\ "techcrunch_ai_newsletter_today.pdf"
       = "techcrunch_ai_newsletter_"
         +:+ strftime (constant_client plain_answer tool_ok) "%Y%m%d" w3
         +:+ ".pdf"
    /\ last (main (constant_client plain_answer tool_ok) tt).2
       = Some (Build "techcrunch_ai_newsletter_today.pdf"
                 (report_header
                    (strftime (constant_client plain_answer tool_ok)
                       "%B %d, %Y" w3)
                  ++ paragraph_elements t)).
Proof.
  apply (main_success_built (constant_client plain_answer tool_ok) tt).
  vm_compute. reflexivity.
Defined.

(** * Further properties of the renderer *)

Lemma has_char_append (c : ascii) (s t : string) :
  has_char c (s +:+ t) = has_char c s || has_char c t.
Proof.
  induction s as [|a s IH]; [reflexivity|].
  cbn [String.append has_char]. rewrite IH, orb_assoc. reflexivity.
Qed.

Lemma replace_from_absent_new (c : ascii) (old new : string) (skip : nat)
    (s : string) :
  has_char c new = false -> has_char c s = false ->
  has_char c (replace_from old new skip s) = false.
Proof.
  intros Hnew. revert skip. induction s as [|a s IH]; intros skip H;
    [reflexivity|].
  apply has_char_cons_false in H as [Ha Hs]. cbn [replace_from].
  destruct skip as [|k]; [|apply IH; exact Hs].
  destruct (startswith old (String a s)).
  - rewrite has_char_append, Hnew, (IH _ Hs). reflexivity.
  - cbn [has_char]. rewrite Ha, (IH _ Hs). reflexivity.
Qed.

Lemma slice_from_absent (c : ascii) (n : nat) (s : string) :
  has_char c s = false -> has_char c (slice_from n s) = false.
Proof.
  revert s. induction n as [|n IH]; intros [|a s] H; try exact H.
  apply has_char_cons_false in H as [_ H]. exact (IH s H).
Qed.

(** The bullet step brings in none of the characters its glyph lacks. *)
Lemma handle_bullets_absent (c : ascii) (text : string) :
  has_char c (nl +:+ bullet +:+ " ") = false ->
  has_char c text = false ->
  has_char c (handle_bullets text) = false.
Proof.
  intros Hglyph Htext. unfold handle_bullets.
  destruct (startswith "- " text); [|exact Htext].
  change (nl +:+ "- ") with (String "010" "- ").
  apply replace_from_absent_new; [exact Hglyph|].
  change (nl +:+ bullet +:+ " ") with (String "010" (bullet +:+ " ")) in Hglyph.
  apply has_char_cons_false in Hglyph as [_ Hglyph].
  rewrite <- append_assoc, has_char_append, Hglyph.
  apply slice_from_absent. exact Htext.
Qed.

Lemma is_heading_marker (rest : string) : is_heading ("- " +:+ rest) = false.
Proof. reflexivity. Qed.

(** X11.  A paragraph whose text is turned into bullets is a body
    element, never a heading. *)
Theorem bullet_paragraph_is_body (para : string) :
  startswith "- " (strip_markup (strip para)) = true ->
  exists text, render_paragraph para = Some (Paragraph text body_style).
Proof.
  intros Hm. unfold render_paragraph.
  destruct (strip para) as [|a s] eqn:Hs; [discriminate|].
  destruct (startswith_marker _ Hm) as [rest Hrest].
  rewrite Hrest, is_heading_marker. eexists. reflexivity.
Qed.

(** X12.  Every element made from the text is a paragraph in the heading
    or in the body style, and its text holds none of the characters
    #, *, [, ], ( and ). *)
Theorem content_elements_clean (t : string) (el : element) :
  In el (paragraph_elements t) ->
  exists text sty,
    el = Paragraph text sty
    /\ (sty = heading_style \/ sty = body_style)
    /\ Forall (fun c => has_char c text = false) markup_chars.
Proof.
  intros Hin. apply list_elem_of_In in Hin.
  unfold paragraph_elements in Hin.
  apply list_elem_of_omap in Hin as (para & _ & Hr).
  unfold render_paragraph in Hr.
  destruct (strip para) as [|a s]; [discriminate|].
  injection Hr as <-. eexists _, _. split; [reflexivity|]. split.
  - destruct (is_heading _); auto.
  - pose proof (strip_markup_absent (String a s)) as H.
    unfold markup_chars in *.
    repeat match goal with
           | H : Forall _ (_ :: _) |- _ =>
               let Hc := fresh "Hc" in apply Forall_cons in H as [Hc H]
           end.
    repeat constructor; apply handle_bullets_absent;
      (reflexivity || assumption).
Qed.

Lemma remove_chars_absent (cs : list ascii) (s : string) :
  Forall (fun c => has_char c s = false) cs -> remove_chars cs s = s.
Proof.
  induction s as [|a s IH]; intros H; [reflexivity|].
  cbn [remove_chars].
  assert (Hex : existsb (Ascii.eqb a) cs = false).
  { apply not_true_is_false. intros Hex.
    apply existsb_exists in Hex as (c & Hin & Hac).
    apply Ascii.eqb_eq in Hac as <-.
    rewrite Forall_forall in H. apply list_elem_of_In, H in Hin.
    cbn [has_char] in Hin. rewrite Ascii.eqb_refl in Hin. discriminate. }
  rewrite Hex, IH; [reflexivity|].
  eapply Forall_impl; [exact H|].
  intros c Hc. apply has_char_cons_false in Hc as [_ Hc]. exact Hc.
Qed.

(** X13.  A paragraph with no whitespace at either end, none of the six
    markup characters and no marker at its start is handed to [Paragraph]
    as it is: nothing in it is escaped or rewritten, be it the markup of
    the backend. *)
Theorem plain_paragraph_verbatim (para : string) :
  para <> "" ->
  strip para = para ->
  Forall (fun c => has_char c para = false) markup_chars ->
  startswith "- " para = false ->
  render_paragraph para
  = Some (Paragraph para
            (if is_heading para then heading_style else body_style)).
Proof.
  intros Hne Hstrip Hclean Hm. unfold render_paragraph. rewrite Hstrip.
  destruct para as [|a s]; [congruence|].
  rewrite strip_markup_removal, (remove_chars_absent _ _ Hclean).
  unfold handle_bullets. rewrite Hm. reflexivity.
Qed.

Lemma startswith_prefix (p s : string) :
  startswith p s = true -> exists rest, s = p +:+ rest.
Proof.
  revert s. induction p as [|a p IH]; intros s H; [exists s; reflexivity|].
  destruct s as [|b s]; [discriminate|]. cbn [startswith] in H.
  apply andb_prop in H as [Hab H]. apply Ascii.eqb_eq in Hab as <-.
  destruct (IH s H) as [rest ->]. exists rest. reflexivity.
Qed.

(** What [space_width] finds is a whitespace character [s] starts with. *)
Lemma space_width_found (s : string) (k : nat) :
  space_width s = S k ->
  exists ws rest,
    In ws whitespace /\ s = ws +:+ rest /\ String.length ws = S k.
Proof.
  unfold space_width.
  destruct (List.find _ whitespace) as [ws|] eqn:Hf; [|discriminate].
  apply List.find_some in Hf as [Hin Hst].
  destruct (startswith_prefix _ _ Hst) as [rest ->].
  intros H. exists ws, rest. auto.
Qed.

(** No whitespace character starts like another: a text that starts with
    one is found to start with one of that many bytes. *)
Lemma space_width_whitespace (ws rest : string) :
  In ws whitespace ->
  ws <> "" /\ space_width (ws +:+ rest) = String.length ws.
Proof.
  intros Hin. cbv in Hin.
  repeat (destruct Hin as [<-|Hin]; [split; [discriminate | reflexivity]|]).
  destruct Hin.
Qed.

Lemma lstrip_from_skip (pre s : string) :
  lstrip_from (String.length pre) (pre +:+ s) = lstrip_from 0 s.
Proof.
  induction pre as [|c pre IH]; [reflexivity|].
  cbn [String.length String.append lstrip_from]. exact IH.
Qed.

Lemma lstrip_whitespace (ws s : string) :
  In ws whitespace -> lstrip (ws +:+ s) = lstrip s.
Proof.
  intros Hin. destruct (space_width_whitespace ws s Hin) as [Hne Hw].
  destruct ws as [|c ws]; [congruence|]. unfold lstrip.
  change (String c ws +:+ s) with (String c (ws +:+ s)) in *.
  cbn [lstrip_from]. rewrite Hw. cbn [String.length].
  apply lstrip_from_skip.
Qed.

Lemma lstrip_blank (s : string) : blank s -> lstrip s = "".
Proof.
  induction 1 as [|ws s Hin _ IH]; [reflexivity|].
  rewrite lstrip_whitespace by exact Hin. exact IH.
Qed.

Lemma rstrip_empty (s : string) :
  rstrip s = "" -> s = "" \/ all_space_from 0 s = true.
Proof.
  destruct s as [|c s]; [left; reflexivity|]. cbn [rstrip].
  destruct (all_space_from 0 (String c s)); [right; reflexivity | discriminate].
Qed.

Lemma length_append (s t : string) :
  String.length (s +:+ t) = String.length s + String.length t.
Proof.
  induction s as [|c s IH]; [reflexivity|].
  cbn [String.append String.length]. rewrite IH. reflexivity.
Qed.

Lemma strip_empty_blank (n : nat) (s : string) :
  String.length s <= n -> strip s = "" -> blank s.
Proof.
  revert s. induction n as [|n IH]; intros s Hlen Hs.
  - destruct s; [constructor | cbn [String.length] in Hlen; lia].
  - destruct s as [|c s]; [constructor|].
    destruct (space_width (String c s)) as [|k] eqn:Hw.
    + exfalso. unfold strip, lstrip in Hs. cbn [lstrip_from] in Hs.
      rewrite Hw in Hs. apply rstrip_empty in Hs as [Hs|Hs]; [discriminate|].
      cbn [all_space_from] in Hs. rewrite Hw in Hs. discriminate.
    + destruct (space_width_found _ _ Hw) as (ws & rest & Hin & Heq & Hk).
      rewrite Heq in *. constructor; [exact Hin|]. apply IH.
      * rewrite length_append in Hlen. lia.
      * unfold strip in *. rewrite lstrip_whitespace in Hs by exact Hin.
        exact Hs.
Qed.

(** Trimming leaves nothing of the blank texts and of no other. *)
Lemma strip_blank (s : string) : strip s = "" <-> blank s.
Proof.
  split.
  - apply (strip_empty_blank (String.length s)). reflexivity.
  - intros H. unfold strip. rewrite (lstrip_blank _ H). reflexivity.
Qed.

Lemma render_paragraph_blank (para : string) :
  render_paragraph para = None <-> blank para.
Proof.
  rewrite <- strip_blank. unfold render_paragraph.
  destruct (strip para); split; (reflexivity || discriminate).
Qed.

Lemma elements_of_omap (paras : list string) :
  elements_of paras (omap render_paragraph paras).
Proof.
  induction paras as [|para paras IH]; [constructor|].
  change (omap render_paragraph (para :: paras))
    with (match render_paragraph para with
          | Some el => el :: omap render_paragraph paras
          | None => omap render_paragraph paras
          end).
  destruct (render_paragraph para) as [el|] eqn:Hr.
  - apply elements_emit; [|exact Hr | exact IH].
    intros Hb. apply render_paragraph_blank in Hb. congruence.
  - apply elements_skip; [|exact IH]. apply render_paragraph_blank, Hr.
Qed.

(** X14.  The renderer skips the paragraphs that are whitespace from end
    to end, whatever the whitespace characters, and no other: the
    elements made from a text are, in the order of its paragraphs, one
    for each paragraph that is not blank. *)
Theorem one_element_per_paragraph (t : string) :
  elements_of (split (nl +:+ nl) t) (paragraph_elements t)
  /\ (forall para, render_paragraph para = None <-> blank para).
Proof.
  split; [apply elements_of_omap | apply render_paragraph_blank].
Qed.

Lemma only_markup_removed (s : string) :
  only_markup s = true -> remove_chars markup_chars s = "".
Proof.
  induction s as [|a s IH]; [reflexivity|].
  cbn [only_markup remove_chars]. intros H.
  apply andb_prop in H as [Ha Hs]. rewrite Ha. exact (IH Hs).
Qed.

(** X15.  A paragraph that is not blank and is made of markup characters
    only is not skipped: it leaves a body element with an empty text. *)
Theorem markup_only_paragraph_empty (para : string) :
  strip para <> "" ->
  only_markup (strip para) = true ->
  render_paragraph para = Some (Paragraph "" body_style).
Proof.
  intros Hne Hm. unfold render_paragraph.
  destruct (strip para) as [|a s]; [congruence|].
  rewrite strip_markup_removal, (only_markup_removed _ Hm). reflexivity.
Qed.

Lemma bullet_paragraph_is_body_witness :
  exists text,
    render_paragraph ("- Title: first" +:+ nl +:+ "- second")
    = Some (Paragraph text body_style).
Proof.
  apply (bullet_paragraph_is_body ("- Title: first" +:+ nl +:+ "- second")).
  reflexivity.
Defined.

Lemma content_elements_clean_witness :
  exists text sty,
    Paragraph "Some bold text" body_style = Paragraph text sty
    /\ (sty = heading_style \/ sty = body_style)
    /\ Forall (fun c => has_char c text = false) markup_chars.
Proof.
  apply (content_elements_clean ("# Head" +:+ nl +:+ nl +:+ "Some **bold** text")).
  right. left. reflexivity.
Defined.

Lemma plain_paragraph_verbatim_witness :
  render_paragraph "Source: a < b & <b>c</b>"
  = Some (Paragraph "Source: a < b & <b>c</b>"
            (if is_heading "Source: a < b & <b>c</b>"
             then heading_style else body_style)).
Proof.
  apply (plain_paragraph_verbatim "Source: a < b & <b>c</b>").
  - discriminate.
  - reflexivity.
  - repeat constructor.
  - reflexivity.
Defined.

Lemma markup_only_paragraph_empty_witness :
  render_paragraph " ### " = Some (Paragraph "" body_style).
Proof.
  apply (markup_only_paragraph_empty " ### ").
  - discriminate.
  - reflexivity.
Defined.
